(** * Symbolic expressions: node model, postorder visitor, differentiation

    A shallow embedding of [expressions/expressions.py].

    Python objects carry an identity; the visitor's [visited] dictionary is
    keyed by it.  An [Instance] therefore records the identity it was
    allocated with, and every constructor call runs in a small state monad
    whose state is the next free identity.  Sharing a sub-expression is
    having the same [Instance] (same identity) at several places of a tree.

    Python numbers are modelled by [Z] (the integers); the two places where
    integer arithmetic would leave the integers (true division, negative
    exponents) have the outcome [Unmodelled]. *)

From Stdlib Require Import ZArith Lia.
From stdpp Require Import base gmap list strings pretty.

Local Open Scope Z_scope.
Local Open Scope string_scope.

(** * Part I: the model *)

(** ** Outcomes and the interpreter monad *)

(** What a dictionary hashes and compares: identity for instances of the
    classes of this module (none defines [__eq__] or [__hash__]), the value
    for the builtin objects. *)
Inductive key :=
| KId (id : nat)
| KInt (z : Z)
| KStr (s : string)
| KNone
| KNotImplemented.

#[global] Instance key_eq_dec : EqDecision key.
Proof. solve_decision. Defined.

#[global] Instance key_countable : Countable key.
Proof.
  refine (inj_countable'
    (fun k => match k with
              | KId n => inl (inl n)
              | KInt z => inl (inr z)
              | KStr s => inr (inl s)
              | KNone => inr (inr true)
              | KNotImplemented => inr (inr false)
              end)
    (fun x => match x with
              | inl (inl n) => KId n
              | inl (inr z) => KInt z
              | inr (inl s) => KStr s
              | inr (inr true) => KNone
              | inr (inr false) => KNotImplemented
              end) _).
  by intros [].
Defined.

(** The exceptions of the module and of the interpreter.  The messages of
    the module's own [raise] statements are kept as written; those of the
    interpreter are shortened. *)
Inductive exn :=
| TypeError (msg : string)
| AttributeError (name : string)
| IndexError
| KeyError (k : key)
| ZeroDivisionError
| NotImplementedError (msg : string).

(** [Unmodelled]: the interpreter would go on with a value outside this
    model (a float, the address-dependent default [repr]).  [OutOfFuel]: the
    iteration bound of a loop was reached. *)
Inductive outcome (A : Type) :=
| Return (a : A)
| Raise (e : exn)
| Unmodelled
| OutOfFuel.
Arguments Return {A} a.
Arguments Raise {A} e.
Arguments Unmodelled {A}.
Arguments OutOfFuel {A}.

Definition bind {A B} (m : outcome A) (k : A -> outcome B) : outcome B :=
  match m with
  | Return a => k a
  | Raise e => Raise e
  | Unmodelled => Unmodelled
  | OutOfFuel => OutOfFuel
  end.

(** Computations with side effects on a state [S]. *)
Definition M (S A : Type) : Type := S -> outcome (A * S).

Definition ret {S A} (a : A) : M S A := fun s => Return (a, s).
Definition raise {S A} (e : exn) : M S A := fun _ => Raise e.
Definition lift {S A} (m : outcome A) : M S A :=
  fun s => bind m (fun a => Return (a, s)).
Definition mbind' {S A B} (m : M S A) (k : A -> M S B) : M S B :=
  fun s => bind (m s) (fun '(a, s') => k a s').

Declare Scope py_scope.
Delimit Scope py_scope with py.
Notation "x <- m ;; k" := (mbind' m (fun x => k))
  (at level 10, m at level 99, k at level 200, only parsing) : py_scope.
Notation "'let?' x := m 'in' k" := (bind m (fun x => k))
  (at level 10, x pattern, m at level 99, k at level 200, only parsing)
  : py_scope.
Local Open Scope py_scope.

(** ** Objects *)

Inductive class :=
| Expression | Operator | Terminal | Symbol | Number
| Add | Mul | Sub | Div | Pow.

#[global] Instance class_eq_dec : EqDecision class.
Proof. solve_decision. Defined.

(** [Instance cls id value operands]: an instance of [cls]; [operands] is
    the tuple set by [Expression.__init__], [value] the attribute set by
    [Terminal.__init__] ([None] when the attribute does not exist). *)
#[warnings="-register-all"] Inductive obj :=
| PyInt (z : Z)
| PyStr (s : string)
| PyNone
| PyNotImplemented
| Instance (cls : class) (id : nat) (value : option obj) (operands : list obj).

#[global] Instance obj_eq_dec : EqDecision obj.
Proof.
  refine (fix go (x y : obj) {struct x} : Decision (x = y) :=
    match x, y with
    | PyInt a, PyInt b => cast_if (decide (a = b))
    | PyStr a, PyStr b => cast_if (decide (a = b))
    | PyNone, PyNone => left _
    | PyNotImplemented, PyNotImplemented => left _
    | Instance c i v ops, Instance c' i' v' ops' =>
        cast_if_and4 (decide (c = c')) (decide (i = i'))
                     (@option_eq_dec _ go v v') (@list_eq_dec _ go ops ops')
    | _, _ => right _
    end); clear go; abstract congruence.
Defined.

Definition hashkey (o : obj) : key :=
  match o with
  | PyInt z => KInt z
  | PyStr s => KStr s
  | PyNone => KNone
  | PyNotImplemented => KNotImplemented
  | Instance _ id _ _ => KId id
  end.

(** [a == b] on these objects. *)
Definition py_eq (a b : obj) : bool := bool_decide (hashkey a = hashkey b).

(** [type(o).__name__] *)
Definition class_name (c : class) : string :=
  match c with
  | Expression => "Expression" | Operator => "Operator"
  | Terminal => "Terminal" | Symbol => "Symbol" | Number => "Number"
  | Add => "Add" | Mul => "Mul" | Sub => "Sub" | Div => "Div" | Pow => "Pow"
  end.

Definition type_name (o : obj) : string :=
  match o with
  | PyInt _ => "int"
  | PyStr _ => "str"
  | PyNone => "NoneType"
  | PyNotImplemented => "NotImplementedType"
  | Instance c _ _ _ => class_name c
  end.

(** [isinstance(o, numbers.Number)], [isinstance(o, str)],
    [isinstance(o, Expression)]. *)
Definition is_number (o : obj) : bool :=
  match o with PyInt _ => true | _ => false end.
Definition is_str (o : obj) : bool :=
  match o with PyStr _ => true | _ => false end.
Definition is_expression (o : obj) : bool :=
  match o with Instance _ _ _ _ => true | _ => false end.

(** Class attributes [precedence] and [symbol]. *)
Definition precedence_of (c : class) : option Z :=
  match c with
  | Terminal | Symbol | Number => Some 3
  | Add | Sub => Some 0
  | Mul | Div => Some 1
  | Pow => Some 2
  | Expression | Operator => None
  end.

Definition symbol_of (c : class) : option string :=
  match c with
  | Add => Some "+" | Mul => Some "*" | Sub => Some "-"
  | Div => Some "/" | Pow => Some "^"
  | _ => None
  end.

Definition is_terminal_class (c : class) : bool :=
  match c with Terminal | Symbol | Number => true | _ => false end.
Definition is_operator_class (c : class) : bool :=
  match c with
  | Operator | Add | Mul | Sub | Div | Pow => true
  | _ => false
  end.

(** Attribute reads. *)
Definition get_precedence (o : obj) : outcome Z :=
  match o with
  | Instance c _ _ _ =>
      match precedence_of c with
      | Some p => Return p
      | None => Raise (AttributeError "precedence")
      end
  | _ => Raise (AttributeError "precedence")
  end.

Definition get_symbol (o : obj) : outcome string :=
  match o with
  | Instance c _ _ _ =>
      match symbol_of c with
      | Some g => Return g
      | None => Raise (AttributeError "symbol")
      end
  | _ => Raise (AttributeError "symbol")
  end.

Definition get_operands (o : obj) : outcome (list obj) :=
  match o with
  | Instance _ _ _ ops => Return ops
  | _ => Raise (AttributeError "operands")
  end.

Definition get_value (o : obj) : outcome obj :=
  match o with
  | Instance _ _ (Some v) _ => Return v
  | _ => Raise (AttributeError "value")
  end.

(** [t[i]] on a tuple. *)
Definition index {A} (t : list A) (i : nat) : outcome A :=
  match t !! i with
  | Some a => Return a
  | None => Raise IndexError
  end.

(** ** Construction *)

(** The interpreter state of this module: the next free identity. *)
Definition Py (A : Type) : Type := M nat A.

Definition new (c : class) (value : option obj) (operands : list obj) : Py obj :=
  fun n => Return (Instance c n value operands, S n).

(** Calling the class [c] on [args]: [Expression.__init__] keeps any operands,
    [Terminal.__init__] takes one value, [Symbol] and [Number] check it. *)
Definition construct (c : class) (args : list obj) : Py obj :=
  match c with
  | Expression | Operator | Add | Mul | Sub | Div | Pow => new c None args
  | Terminal =>
      match args with
      | [value] => new c (Some value) []
      | _ => raise (TypeError "__init__(): wrong number of arguments")
      end
  | Symbol =>
      match args with
      | [value] =>
          if is_str value then new c (Some value) []
          else raise (TypeError "Symbol value must be a string.")
      | _ => raise (TypeError "__init__(): wrong number of arguments")
      end
  | Number =>
      match args with
      | [value] =>
          if is_number value then new c (Some value) []
          else raise (TypeError "Number value must be a number.")
      | _ => raise (TypeError "__init__(): wrong number of arguments")
      end
  end.

(** The operator methods of [Expression]. *)
Definition forward (c : class) (self other : obj) : Py obj :=
  other <- (if is_number other then construct Number [other] else ret other) ;;
  construct c [self; other].

Definition reflected (c : class) (self other : obj) : Py obj :=
  if is_number other then
    n <- construct Number [other] ;; construct c [n; self]
  else ret PyNotImplemented.

Definition __add__ := forward Add.
Definition __radd__ := reflected Add.
Definition __sub__ := forward Sub.
Definition __rsub__ := reflected Sub.
Definition __mul__ := forward Mul.
Definition __rmul__ := reflected Mul.
Definition __truediv__ := forward Div.
Definition __rtruediv__ := reflected Div.
Definition __pow__ := forward Pow.
(** [__rpow__] calls the builtin [pow] on [Number(other)] and [self]; its
    left operand being an [Expression], that is [Number(other).__pow__(self)]. *)
Definition __rpow__ (self other : obj) : Py obj :=
  if is_number other then
    n <- construct Number [other] ;; __pow__ n self
  else ret PyNotImplemented.

(** ** Binary operators *)

Inductive binop := OpAdd | OpSub | OpMul | OpTruediv | OpPow.

Definition dunder (op : binop) : obj -> obj -> Py obj :=
  match op with
  | OpAdd => __add__ | OpSub => __sub__ | OpMul => __mul__
  | OpTruediv => __truediv__ | OpPow => __pow__
  end.

Definition rdunder (op : binop) : obj -> obj -> Py obj :=
  match op with
  | OpAdd => __radd__ | OpSub => __rsub__ | OpMul => __rmul__
  | OpTruediv => __rtruediv__ | OpPow => __rpow__
  end.

Definition repeat_str (s : string) (n : Z) : string :=
  String.concat "" (replicate (Z.to_nat n) s).

(** The operators of the builtin objects among themselves. *)
Definition builtin_binop (op : binop) (a b : obj) : outcome obj :=
  match op, a, b with
  | OpAdd, PyInt x, PyInt y => Return (PyInt (x + y))
  | OpSub, PyInt x, PyInt y => Return (PyInt (x - y))
  | OpMul, PyInt x, PyInt y => Return (PyInt (x * y))
  | OpTruediv, PyInt x, PyInt y =>
      if decide (y = 0) then Raise ZeroDivisionError else Unmodelled
  | OpPow, PyInt x, PyInt y =>
      if decide (0 <= y) then Return (PyInt (x ^ y))
      else if decide (x = 0) then Raise ZeroDivisionError else Unmodelled
  | OpAdd, PyStr s, PyStr t => Return (PyStr (s +:+ t))
  | OpMul, PyStr s, PyInt n => Return (PyStr (repeat_str s n))
  | OpMul, PyInt n, PyStr s => Return (PyStr (repeat_str s n))
  | _, _, _ => Raise (TypeError "unsupported operand type(s)")
  end.

(** [a op b] as the interpreter evaluates it: the left operand's method
    first (the methods of [Expression] never answer [NotImplemented]), the
    right operand's reflected method when the left one is a builtin object,
    [TypeError] when that answers [NotImplemented]. *)
Definition py_binop (op : binop) (a b : obj) : Py obj :=
  match a, b with
  | Instance _ _ _ _, _ => dunder op a b
  | _, Instance _ _ _ _ =>
      r <- rdunder op b a ;;
      match r with
      | PyNotImplemented => raise (TypeError "unsupported operand type(s)")
      | _ => ret r
      end
  | _, _ => lift (builtin_binop op a b)
  end.

(** ** Rendering *)

(** The inner function [paren] of [Operator.__str__]; [s] is [str(expr)]. *)
Definition paren (self expr : obj) (s : outcome string) : outcome string :=
  let? p := get_precedence expr in
  let? q := get_precedence self in
  if decide (p < q) then
    let? t := s in Return ("(" +:+ t +:+ ")")
  else s.

(** [str(o)]: [Terminal.__str__], [Operator.__str__], and [object.__str__]
    for a direct instance of [Expression]. *)
Fixpoint py_str (o : obj) : outcome string :=
  match o with
  | PyInt z => Return (pretty z)
  | PyStr s => Return s
  | PyNone => Return "None"
  | PyNotImplemented => Return "NotImplemented"
  | Instance c _ value operands =>
      if is_terminal_class c then
        match value with
        | Some v => py_str v
        | None => Raise (AttributeError "value")
        end
      else if is_operator_class c then
        match operands with
        | [] => Raise IndexError
        | a :: rest =>
            let? sa := paren o a (py_str a) in
            let? g := get_symbol o in
            match rest with
            | [] => Raise IndexError
            | b :: _ =>
                let? sb := paren o b (py_str b) in
                Return (sa +:+ " " +:+ g +:+ " " +:+ sb)
            end
        end
      else Unmodelled
  end.

(** ** The postorder visitor *)

(** [o in visited] and [visited[o] for o in operands]. *)
Definition contains {R} (visited : gmap key R) (o : obj) : bool :=
  match visited !! hashkey o with Some _ => true | None => false end.

Fixpoint lookup_all {R} (visited : gmap key R) (operands : list obj)
  : outcome (list R) :=
  match operands with
  | [] => Return []
  | o :: operands =>
      match visited !! hashkey o with
      | Some r => let? rs := lookup_all visited operands in Return (r :: rs)
      | None => Raise (KeyError (hashkey o))
      end
  end.

(** The operands of a popped node that have no result yet. *)
Definition unvisited {R} (visited : gmap key R) (operands : list obj)
  : list obj :=
  List.filter (fun o => negb (contains visited o)) operands.

(** The [while stack:] loop.  The head of [stack] is the top of the Python
    list (its last element).  The fold function [fn] may have side effects
    on a state [St] and may raise. *)
Fixpoint loop {St R} (fuel : nat) (fn : obj -> list R -> gmap string obj -> M St R)
    (kwargs : gmap string obj) (stack : list obj) (visited : gmap key R)
    (st : St) : outcome (gmap key R * St) :=
  match fuel with
  | O => OutOfFuel
  | S fuel =>
      match stack with
      | [] => Return (visited, st)
      | e :: stack =>
          let? operands := get_operands e in
          let unvisited_children := unvisited visited operands in
          match unvisited_children with
          | _ :: _ =>
              loop fuel fn kwargs (rev unvisited_children ++ e :: stack)
                   visited st
          | [] =>
              let? args := lookup_all visited operands in
              let? (r, st) := fn e args kwargs st in
              loop fuel fn kwargs stack (<[hashkey e := r]> visited) st
          end
      end
  end.

(** Number of nodes of an expression, counted along every path. *)
Fixpoint size (o : obj) : nat :=
  match o with
  | Instance _ _ _ operands => S (list_sum (List.map size operands))
  | _ => 1
  end.

(** The loop is run for [2 * size expr] iterations, which
    [postvisitor_process] below shows to be always enough. *)
Definition postvisitor {St R} (expr : obj)
    (fn : obj -> list R -> gmap string obj -> M St R)
    (kwargs : gmap string obj) : M St R :=
  fun st =>
    let? (visited, st) := loop (2 * size expr) fn kwargs [expr] ∅ st in
    match visited !! hashkey expr with
    | Some r => Return (r, st)
    | None => Raise (KeyError (hashkey expr))
    end.

(** ** Differentiation *)

Definition getitem (kwargs : gmap string obj) (k : string) : outcome obj :=
  match kwargs !! k with
  | Some v => Return v
  | None => Raise (KeyError (KStr k))
  end.

(** [expr.operands[i]] *)
Definition operand (expr : obj) (i : nat) : Py obj :=
  lift (let? operands := get_operands expr in index operands i).

(** The rules registered with [singledispatch], selected by the class of
    [expr]; the first function is the one for every other type. *)
Definition differentiate (expr : obj) (o : list obj) (kwargs : gmap string obj)
  : Py obj :=
  match expr with
  | Instance Number _ _ _ => ret (PyInt 0)
  | Instance Symbol _ _ _ =>
      value <- lift (get_value expr) ;;
      var <- lift (getitem kwargs "var") ;;
      if py_eq value var then ret (PyInt 1) else ret (PyInt 0)
  | Instance Add _ _ _ =>
      o0 <- lift (index o 0) ;;
      o1 <- lift (index o 1) ;;
      py_binop OpAdd o0 o1
  | Instance Sub _ _ _ =>
      o0 <- lift (index o 0) ;;
      o1 <- lift (index o 1) ;;
      py_binop OpSub o0 o1
  | Instance Mul _ _ _ =>
      o0 <- lift (index o 0) ;;
      b <- operand expr 1 ;;
      l <- py_binop OpMul o0 b ;;
      o1 <- lift (index o 1) ;;
      a <- operand expr 0 ;;
      r <- py_binop OpMul o1 a ;;
      py_binop OpAdd l r
  | Instance Div _ _ _ =>
      o0 <- lift (index o 0) ;;
      b <- operand expr 1 ;;
      l <- py_binop OpMul o0 b ;;
      a <- operand expr 0 ;;
      o1 <- lift (index o 1) ;;
      r <- py_binop OpMul a o1 ;;
      num <- py_binop OpSub l r ;;
      b <- operand expr 1 ;;
      den <- py_binop OpPow b (PyInt 2) ;;
      py_binop OpTruediv num den
  | Instance Pow _ _ _ =>
      b <- operand expr 1 ;;
      a <- operand expr 0 ;;
      b' <- operand expr 1 ;;
      e <- py_binop OpSub b' (PyInt 1) ;;
      p <- py_binop OpPow a e ;;
      l <- py_binop OpMul b p ;;
      o0 <- lift (index o 0) ;;
      py_binop OpMul l o0
  | _ =>
      raise (NotImplementedError ("Cannot differentiate a " +:+ type_name expr))
  end.

(** ** The data model of the specification *)

Definition number (value : Z) : Py obj := construct Number [PyInt value].
Definition symbol (name : string) : Py obj := construct Symbol [PyStr name].

(** The keyword arguments [var=name]. *)
Definition var_kwargs (name : string) : gmap string obj :=
  {["var" := PyStr name]}.

(** The classes [differentiate.register] was applied to. *)
Definition has_rule (o : obj) : bool :=
  match o with
  | Instance (Number | Symbol | Add | Sub | Mul | Div | Pow) _ _ _ => true
  | _ => false
  end.

Definition is_symbol (o : obj) : bool :=
  match o with Instance Symbol _ _ _ => true | _ => false end.

Definition class_of_binop (op : binop) : class :=
  match op with
  | OpAdd => Add | OpSub => Sub | OpMul => Mul | OpTruediv => Div | OpPow => Pow
  end.

(** The expressions of the data model: [Number] and [Symbol] terminals
    holding a number and a string, and binary nodes of the five operator
    classes over such expressions. *)
Fixpoint well_formed (o : obj) : bool :=
  match o with
  | Instance c _ value operands =>
      match c, value, operands with
      | Number, Some (PyInt _), [] => true
      | Symbol, Some (PyStr _), [] => true
      | (Add | Sub | Mul | Div | Pow), None, [a; b] =>
          well_formed a && well_formed b
      | _, _, _ => false
      end
  | _ => false
  end.

(** Forgetting identities: the structural shape of a value. *)
Fixpoint erase (o : obj) : obj :=
  match o with
  | Instance c _ value operands =>
      Instance c 0 (option_map erase value) (List.map erase operands)
  | _ => o
  end.

(** Shapes: expressions with their identities forgotten. *)
Definition sh_number (v : Z) : obj := Instance Number 0 (Some (PyInt v)) [].
Definition sh_symbol (name : string) : obj :=
  Instance Symbol 0 (Some (PyStr name)) [].
Definition sh_op (c : class) (l r : obj) : obj := Instance c 0 None [l; r].

Fixpoint contains_symbol (o : obj) : bool :=
  match o with
  | Instance c _ _ operands =>
      bool_decide (c = Symbol) || existsb contains_symbol operands
  | _ => false
  end.

(** The values the rules produce: bare numbers and expression nodes. *)
Definition good (v : obj) : bool := is_number v || is_expression v.

(** ** Sharing and identities *)

(** The nodes reachable from [o], [o] included. *)
Fixpoint subterms (o : obj) : list obj :=
  o :: match o with
       | Instance _ _ _ operands => flat_map subterms operands
       | _ => []
       end.

(** An object has one identity: two reachable nodes with the same key are
    the same node.  Every graph the interpreter can build satisfies this. *)
Definition consistent (root : obj) : Prop :=
  Forall (fun a => Forall (fun b => hashkey a = hashkey b -> a = b)
                          (subterms root)) (subterms root).

#[global] Instance consistent_dec root : Decision (consistent root).
Proof. unfold consistent. apply _. Defined.

(** ** The rendering contract *)

(** The rendering contract in the words of the specification: precedence
    tiers, glyphs, and parentheses around a side of strictly lower tier. *)
Definition tier (o : obj) : Z :=
  match o with
  | Instance (Add | Sub) _ _ _ => 0
  | Instance (Mul | Div) _ _ _ => 1
  | Instance Pow _ _ _ => 2
  | _ => 3
  end.

Definition glyph (c : class) : string :=
  match c with
  | Add => "+" | Sub => "-" | Mul => "*" | Div => "/" | Pow => "^"
  | _ => ""
  end.

Definition render_side (parent child : obj) (rendered : string) : string :=
  if decide (tier child < tier parent) then "(" +:+ rendered +:+ ")"
  else rendered.

Fixpoint render (o : obj) : string :=
  match o with
  | Instance c _ value operands =>
      match value, operands with
      | Some (PyInt v), _ => pretty v
      | Some (PyStr n), _ => n
      | None, [l; r] =>
          render_side o l (render l) +:+ " " +:+ glyph c +:+ " " +:+
          render_side o r (render r)
      | _, _ => ""
      end
  | _ => ""
  end.

(** ** A recursive account of the visitor *)

(** What the loop does between popping [e] and being back at the stack
    that was below [e]: the operands that are not in [visited] at that moment
    are processed, the last one first, then [fn] is applied to [e] and the
    result stored. *)
Definition visit {St R} (fn : obj -> list R -> gmap string obj -> M St R)
    (kwargs : gmap string obj) (e : obj) (operands : list obj)
    (visited : gmap key R) (st : St) : outcome (gmap key R * St) :=
  let? args := lookup_all visited operands in
  let? (r, st) := fn e args kwargs st in
  Return (<[hashkey e := r]> visited, st).

Section process_children.
Context {St R : Type}.
Variable process : obj -> gmap key R -> St -> outcome (gmap key R * St).
Variable visited0 : gmap key R.

Fixpoint process_children (l : list obj) (acc : gmap key R * St)
  : outcome (gmap key R * St) :=
  match l with
  | [] => Return acc
  | c :: l =>
      let? acc := process_children l acc in
      if contains visited0 c then Return acc else process c acc.1 acc.2
  end.
End process_children.

Fixpoint process {St R} (fn : obj -> list R -> gmap string obj -> M St R)
    (kwargs : gmap string obj) (e : obj) (visited : gmap key R) (st : St)
  : outcome (gmap key R * St) :=
  match e with
  | Instance _ _ _ operands =>
      let? (visited', st') :=
        process_children (process fn kwargs) visited operands (visited, st) in
      visit fn kwargs e operands visited' st'
  | _ => Raise (AttributeError "operands")
  end.

(** Results are only added: what has a result in [V] has one in [V']. *)
Definition grows {R} (V V' : gmap key R) : Prop :=
  forall o : obj, contains V o = true -> contains V' o = true.

(** The loop, started with [e] on top of the stack, reaches the stack below
    [e] in at most [2 * size e - 1] iterations, in the state [process]
    computes; when [process] raises, so does the loop. *)
Definition simulates {St R} (fn : obj -> list R -> gmap string obj -> M St R)
    (kwargs : gmap string obj) (e : obj) : Prop :=
  forall stack (V : gmap key R) st,
  exists n, (n <= 2 * size e - 1)%nat /\
    forall k, loop (n + k) fn kwargs (e :: stack) V st =
              let? (V', st') := process fn kwargs e V st in
              loop k fn kwargs stack V' st'.

Definition memo_good (V : gmap key obj) : Prop :=
  map_Forall (fun _ v => good v = true) V.

(** Differentiating [c] either returns, with bare numbers and expression
    nodes in the memo, or raises the [KeyError] of the [Symbol] rule. *)
Definition differentiates (kwargs : gmap string obj) (c : obj) : Prop :=
  forall (V : gmap key obj) st, memo_good V ->
    (exists V' st',
        process differentiate kwargs c V st = Return (V', st') /\ memo_good V')
    \/
    (process differentiate kwargs c V st = Raise (KeyError (KStr "var")) /\
     kwargs !! "var" = None /\ contains_symbol c = true).

(** Among the nodes of [root], those with a result in [V] contain no
    [Symbol]. *)
Definition symbol_free (root : obj) (V : gmap key obj) : Prop :=
  forall d, In d (subterms root) -> contains V d = true ->
            contains_symbol d = false.

(** ** Programs *)

(** A fold function that only records the node it is applied to. *)
Definition record_call : obj -> list unit -> gmap string obj -> M (list key) unit :=
  fun e _ _ calls => Return (tt, (calls ++ [hashkey e])%list).

(** [s = Symbol("x"); p = s * 2; root = s + p]: the node [s] is an operand
    of the two distinct nodes [p] and [root]. *)
Definition shared_symbol : Py obj :=
  s <- symbol "x" ;; p <- py_binop OpMul s (PyInt 2) ;; py_binop OpAdd s p.

Definition node_s : obj := Instance Symbol 0 (Some (PyStr "x")) [].
Definition node_two : obj := Instance Number 1 (Some (PyInt 2)) [].
Definition node_p : obj := Instance Mul 2 None [node_s; node_two].
Definition shared_symbol_graph : obj := Instance Add 3 None [node_s; node_p].

(** [differentiate(mul(symbol("x"), symbol("x")), "x")] *)
Definition product_example : Py obj :=
  x1 <- symbol "x" ;; x2 <- symbol "x" ;; e <- py_binop OpMul x1 x2 ;;
  postvisitor e differentiate (var_kwargs "x").

(** [differentiate(pow(symbol("x"), number(3)), "x")] *)
Definition power_example : Py obj :=
  x <- symbol "x" ;; three <- number 3 ;; e <- py_binop OpPow x three ;;
  postvisitor e differentiate (var_kwargs "x").

(** [differentiate(pow(number(2), symbol("x")), "x")] *)
Definition variable_exponent_example : Py obj :=
  two <- number 2 ;; x <- symbol "x" ;; e <- py_binop OpPow two x ;;
  postvisitor e differentiate (var_kwargs "x").

(** [differentiate(number(v), "x")] and [differentiate(symbol(name), "x")] *)
Definition number_example (v : Z) : Py obj :=
  e <- number v ;; postvisitor e differentiate (var_kwargs "x").
Definition symbol_example (name : string) : Py obj :=
  e <- symbol name ;; postvisitor e differentiate (var_kwargs "x").

(** ** The recursive fold *)

(** The fold of the operands as the loop orders it: the last operand first,
    the results in the order of the operands. *)
Section fold_operands.
Context {St R : Type}.
Variable fold : obj -> M St R.

Fixpoint fold_operands (l : list obj) (st : St) : outcome (list R * St) :=
  match l with
  | [] => Return ([], st)
  | c :: l =>
      let? (rs, st) := fold_operands l st in
      let? (r, st) := fold c st in
      Return (r :: rs, st)
  end.
End fold_operands.

(** The postorder fold by recursion on the tree: [fn] is applied to every
    node once, after its operands. *)
Fixpoint postorder {St R} (fn : obj -> list R -> gmap string obj -> M St R)
    (kwargs : gmap string obj) (e : obj) (st : St) : outcome (R * St) :=
  match e with
  | Instance _ _ _ operands =>
      let? (rs, st) := fold_operands (postorder fn kwargs) operands st in
      fn e rs kwargs st
  | _ => Raise (AttributeError "operands")
  end.

(** No node is shared: the reachable nodes have pairwise distinct keys. *)
Definition distinct (root : obj) : Prop :=
  NoDup (List.map hashkey (subterms root)).

(** A fold function without side effects. *)
Definition pure_fn {St R} (f : obj -> list R -> gmap string obj -> outcome R)
  : obj -> list R -> gmap string obj -> M St R :=
  fun e args kwargs => lift (f e args kwargs).

(** Among the nodes of [root], those with a result in [V] have the result
    of the recursive fold. *)
Definition memo_sound {St R} (fn : obj -> list R -> gmap string obj -> M St R)
    (kwargs : gmap string obj) (root : obj) (V : gmap key R) : Prop :=
  forall d r, In d (subterms root) -> V !! hashkey d = Some r ->
              forall st : St, postorder fn kwargs d st = Return (r, st).

(** [p] is the outcome [m] with a memo satisfying [P] in place of the
    result. *)
Definition tracks {St R} (m : outcome (R * St)) (p : outcome (gmap key R * St))
    (P : R -> gmap key R -> Prop) : Prop :=
  match m with
  | Return (r, st) => exists V, p = Return (V, st) /\ P r V
  | Raise x => p = Raise x
  | Unmodelled => p = Unmodelled
  | OutOfFuel => p = OutOfFuel
  end.

Definition tracks_list {St R} (m : outcome (list R * St))
    (p : outcome (gmap key R * St)) (P : list R -> gmap key R -> Prop) : Prop :=
  match m with
  | Return (rs, st) => exists V, p = Return (V, st) /\ P rs V
  | Raise x => p = Raise x
  | Unmodelled => p = Unmodelled
  | OutOfFuel => p = OutOfFuel
  end.

(** The loop on [e] is the recursive fold of [e] when no node below [e]
    has a result yet and none is shared. *)
Definition folds_distinct {St R}
    (fn : obj -> list R -> gmap string obj -> M St R)
    (kwargs : gmap string obj) (e : obj) : Prop :=
  forall (V : gmap key R) st,
    NoDup (List.map hashkey (subterms e)) ->
    (forall d, In d (subterms e) -> V !! hashkey d = None) ->
    tracks (postorder fn kwargs e st) (process fn kwargs e V st)
      (fun r V' =>
         V' !! hashkey e = Some r /\
         forall k, ~ In k (List.map hashkey (subterms e)) -> V' !! k = V !! k).

(** The loop on a node [e] of [root] keeps the memo sound. *)
Definition folds_sound {St R}
    (fn : obj -> list R -> gmap string obj -> M St R)
    (kwargs : gmap string obj) (root e : obj) : Prop :=
  In e (subterms root) ->
  forall (V : gmap key R) st,
    memo_sound fn kwargs root V ->
    tracks (postorder fn kwargs e st) (process fn kwargs e V st)
      (fun _ V' => memo_sound fn kwargs root V').

(** ** Derivatives *)

(** What differentiation returns: a bare number or an expression of the
    data model. *)
Definition derived (v : obj) : bool := is_number v || well_formed v.

Definition memo_derived (V : gmap key obj) : Prop :=
  map_Forall (fun _ v => derived v = true) V.

(** Sums and differences of terminals, and the derivative of such an
    expression: the number of occurrences of the variable, with signs. *)
Fixpoint linear (o : obj) : bool :=
  match o with
  | Instance (Number | Symbol) _ _ _ => true
  | Instance (Add | Sub) _ _ operands => forallb linear operands
  | _ => false
  end.

Fixpoint slope (var : obj) (o : obj) : Z :=
  match o with
  | Instance Symbol _ (Some value) _ => if py_eq value var then 1 else 0
  | Instance Add _ _ [a; b] => slope var a + slope var b
  | Instance Sub _ _ [a; b] => slope var a - slope var b
  | _ => 0
  end.

(** Among the nodes of [root], a linear one with a result in [V] has its
    slope as result, any other one an expression node. *)
Definition memo_linear (root var : obj) (V : gmap key obj) : Prop :=
  forall d r, In d (subterms root) -> V !! hashkey d = Some r ->
    if linear d then r = PyInt (slope var d) else is_expression r = true.

(** ** The official representation *)

(** [repr] of a string is modelled where it is the string between single
    quotes: all characters printable ASCII, no quote, no backslash. *)
Definition plain_char (a : Ascii.ascii) : bool :=
  let n := Ascii.nat_of_ascii a in
  Nat.leb 32 n && Nat.leb n 126 && negb (Nat.eqb n 39) && negb (Nat.eqb n 92).

Definition plain (s : string) : bool :=
  forallb plain_char (String.list_ascii_of_string s).

Definition repr_str (s : string) : outcome string :=
  if plain s then Return ("'" +:+ s +:+ "'") else Unmodelled.

(** [repr] of a tuple, given [repr] of its items. *)
Section repr_tuple.
Variable repr : obj -> outcome string.

Fixpoint repr_items (l : list obj) : outcome string :=
  match l with
  | [] => Return ""
  | x :: l =>
      let? s := repr x in
      match l with
      | [] => Return s
      | _ :: _ => let? t := repr_items l in Return (s +:+ ", " +:+ t)
      end
  end.

Definition repr_tuple (l : list obj) : outcome string :=
  match l with
  | [] => Return "()"
  | [x] => let? s := repr x in Return ("(" +:+ s +:+ ",)")
  | _ => let? s := repr_items l in Return ("(" +:+ s +:+ ")")
  end.
End repr_tuple.

(** [repr(o)]: [Terminal.__repr__], [Operator.__repr__], and
    [object.__repr__] for a direct instance of [Expression]. *)
Fixpoint py_repr (o : obj) : outcome string :=
  match o with
  | PyInt z => Return (pretty z)
  | PyStr s => repr_str s
  | PyNone => Return "None"
  | PyNotImplemented => Return "NotImplemented"
  | Instance c _ value operands =>
      if is_terminal_class c then
        match value with
        | Some v => py_repr v
        | None => Raise (AttributeError "value")
        end
      else if is_operator_class c then
        let? t := repr_tuple py_repr operands in
        Return (class_name c +:+ t)
      else Unmodelled
  end.

(** The text of [repr] on the data model: the class name and the operands
    between parentheses, names between quotes. *)
Fixpoint repr_text (o : obj) : string :=
  match o with
  | Instance c _ value operands =>
      match value, operands with
      | Some (PyInt v), _ => pretty v
      | Some (PyStr n), _ => "'" +:+ n +:+ "'"
      | None, [l; r] =>
          class_name c +:+ "(" +:+ repr_text l +:+ ", " +:+ repr_text r +:+ ")"
      | _, _ => ""
      end
  | _ => ""
  end.

Fixpoint plain_names (o : obj) : bool :=
  match o with
  | Instance _ _ value operands =>
      match value with
      | Some (PyStr n) => plain n
      | _ => true
      end && forallb plain_names operands
  | _ => true
  end.

(** The shape of a child result as an operand of an operator: a bare
    number is wrapped into a [Number] node. *)
Definition operand_shape (d : obj) : obj :=
  match d with
  | PyInt z => sh_number z
  | _ => erase d
  end.

(** [differentiate(mul(symbol("x"), symbol("y")), "x")] *)
Definition product_xy_example : Py obj :=
  x <- symbol "x" ;; y <- symbol "y" ;; e <- py_binop OpMul x y ;;
  postvisitor e differentiate (var_kwargs "x").

(** * Part II: properties *)

(** ** Induction principles and basic facts *)

(** Structural induction on objects, through the operand tuples and the
    value attribute. *)
Lemma obj_ind' (P : obj -> Prop) :
  (forall z, P (PyInt z)) ->
  (forall s, P (PyStr s)) ->
  P PyNone ->
  P PyNotImplemented ->
  (forall c i v ops,
      (forall w, v = Some w -> P w) -> Forall P ops -> P (Instance c i v ops)) ->
  forall o, P o.
Proof.
  intros Hi Hs Hn Hni Hinst.
  fix IH 1.
  intros [z|s| | |c i v ops]; [apply Hi|apply Hs|apply Hn|apply Hni|].
  apply Hinst.
  - destruct v as [w|]; intros w' Hw; [|discriminate].
    injection Hw as <-. apply IH.
  - induction ops as [|o ops IHops]; constructor; [apply IH | exact IHops].
Qed.

Lemma well_formed_ind (P : obj -> Prop) :
  (forall i z, P (Instance Number i (Some (PyInt z)) [])) ->
  (forall i s, P (Instance Symbol i (Some (PyStr s)) [])) ->
  (forall op i a b,
      well_formed a = true -> well_formed b = true -> P a -> P b ->
      P (Instance (class_of_binop op) i None [a; b])) ->
  forall o, well_formed o = true -> P o.
Proof.
  intros Hnum Hsym Hop.
  induction o as [| | | |c i v ops _ IH] using obj_ind'; try done.
  intros Hwf.
  destruct c, v as [[]|], ops as [|a [|b [|]]]; simpl in Hwf; try done;
    apply andb_prop in Hwf as [Ha Hb];
    apply Forall_cons in IH as [IHa IH]; apply Forall_cons in IH as [IHb _].
  - apply (Hop OpAdd); auto.
  - apply (Hop OpMul); auto.
  - apply (Hop OpSub); auto.
  - apply (Hop OpTruediv); auto.
  - apply (Hop OpPow); auto.
Qed.

Lemma well_formed_expression o : well_formed o = true -> is_expression o = true.
Proof. by destruct o. Qed.

Lemma size_pos o : (1 <= size o)%nat.
Proof. destruct o; simpl; lia. Qed.

Lemma contains_insert {R} (V : gmap key R) e r o :
  contains (<[hashkey e := r]> V) o = true <->
  hashkey o = hashkey e \/ contains V o = true.
Proof.
  unfold contains. rewrite lookup_insert.
  destruct (decide (hashkey e = hashkey o)) as [Heq|Hne].
  - split; auto.
  - destruct (V !! hashkey o); split; auto.
    intros [?|?]; congruence.
Qed.

Lemma contains_empty {R} o : contains (∅ : gmap key R) o = false.
Proof. unfold contains. by rewrite lookup_empty. Qed.

Lemma filter_unvisited_nil {R} (V : gmap key R) l :
  Forall (fun o => contains V o = true) l ->
  List.filter (fun o => negb (contains V o)) l = [].
Proof.
  induction 1 as [|o l Ho _ IH]; simpl; [done|]. by rewrite Ho.
Qed.

Lemma lookup_all_contains {R} (V : gmap key R) l :
  Forall (fun o => contains V o = true) l ->
  exists args, lookup_all V l = Return args /\ length args = length l.
Proof.
  induction 1 as [|o l Ho _ [args [IH Hlen]]]; simpl.
  - by exists [].
  - unfold contains in Ho. destruct (V !! hashkey o) as [r|]; [|done].
    exists (r :: args). rewrite IH. simpl. by rewrite Hlen.
Qed.

Lemma subterms_self o : In o (subterms o).
Proof. destruct o; simpl; auto. Qed.

Lemma subterms_operand root : forall c i v ops o,
  In (Instance c i v ops) (subterms root) -> In o ops -> In o (subterms root).
Proof.
  induction root as [| | | |c' i' v' ops' _ IH] using obj_ind';
    intros c i v ops o Hin Ho; simpl in Hin;
    try (by destruct Hin as [?|[]]).
  destruct Hin as [[= -> -> -> ->]|Hin]; simpl; right; apply in_flat_map.
  - exists o. split; [done|apply subterms_self].
  - apply in_flat_map in Hin as [child [Hchild Hin]].
    exists child. split; [done|].
    rewrite List.Forall_forall in IH. by apply (IH child Hchild c i v ops).
Qed.

Lemma getitem_var name : getitem (var_kwargs name) "var" = Return (PyStr name).
Proof. unfold getitem, var_kwargs. by rewrite lookup_singleton_eq. Qed.

Lemma py_eq_str s t : py_eq (PyStr s) (PyStr t) = bool_decide (s = t).
Proof. unfold py_eq. simpl. apply bool_decide_ext. split; congruence. Qed.

(** ** The loop computes the recursive account *)

Section refinement.
Context {St R : Type}.
Variable fn : obj -> list R -> gmap string obj -> M St R.
Variable kwargs : gmap string obj.

Lemma visit_grows e ops (V : gmap key R) st V' st' :
  visit fn kwargs e ops V st = Return (V', st') ->
  grows V V' /\ contains V' e = true.
Proof.
  unfold visit. destruct (lookup_all V ops) as [args| | |]; try done.
  simpl. destruct (fn e args kwargs st) as [[r st1]| | |]; try done.
  simpl. intros [= <- <-]. split.
  - intros o Ho. apply contains_insert. by right.
  - apply contains_insert. by left.
Qed.

Lemma process_children_grows (V0 : gmap key R) l :
  Forall (fun c => forall V st V' st',
              process fn kwargs c V st = Return (V', st') ->
              grows V V' /\ contains V' c = true) l ->
  forall V st V' st',
    grows V0 V ->
    process_children (process fn kwargs) V0 l (V, st) = Return (V', st') ->
    grows V V' /\ Forall (fun c => contains V' c = true) l.
Proof.
  induction 1 as [|c l Hc _ IH]; intros V st V' st' H0 Hrun; simpl in Hrun.
  - injection Hrun as <- <-. split; [by intros o|constructor].
  - destruct (process_children _ V0 l (V, st)) as [[V1 st1]| | |] eqn:Hl;
      try done.
    simpl in Hrun. destruct (IH _ _ _ _ H0 Hl) as [HV1 Hall].
    destruct (contains V0 c) eqn:Hin.
    + injection Hrun as <- <-. split; [done|]. constructor; auto.
    + destruct (Hc _ _ _ _ Hrun) as [HV' Hcin].
      split; [intros o Ho; auto|].
      constructor; [done|]. eapply Forall_impl; [exact Hall|].
      intros o Ho. by apply HV'.
Qed.

Lemma process_grows e : forall (V : gmap key R) st V' st',
  process fn kwargs e V st = Return (V', st') ->
  grows V V' /\ contains V' e = true.
Proof.
  induction e as [| | | |c i v ops _ IH] using obj_ind';
    intros V st V' st' Hrun; try done.
  simpl in Hrun.
  destruct (process_children _ V ops (V, st)) as [[V1 st1]| | |] eqn:Hl;
    try done.
  simpl in Hrun.
  destruct (process_children_grows V ops IH V st V1 st1) as [H1 _];
    [by intros o|done|].
  destruct (visit_grows _ _ _ _ _ _ Hrun) as [H2 H3].
  split; [intros o Ho; auto|done].
Qed.

Lemma loop_visit k c i v ops stack (V : gmap key R) st :
  unvisited V ops = [] ->
  loop (S k) fn kwargs (Instance c i v ops :: stack) V st =
  let? (V', st') := visit fn kwargs (Instance c i v ops) ops V st in
  loop k fn kwargs stack V' st'.
Proof.
  unfold visit. intros Hf. simpl. rewrite Hf.
  destruct (lookup_all V ops) as [args| | |]; simpl; try done.
  by destruct (fn _ args kwargs st) as [[r st1]| | |].
Qed.

Lemma loop_push k c i v ops stack (V : gmap key R) st :
  unvisited V ops <> [] ->
  loop (S k) fn kwargs (Instance c i v ops :: stack) V st =
  loop k fn kwargs (rev (unvisited V ops) ++ Instance c i v ops :: stack) V st.
Proof.
  intros Hf. simpl. by destruct (unvisited V ops).
Qed.

Lemma process_Instance c i v ops (V : gmap key R) st :
  process fn kwargs (Instance c i v ops) V st =
  let? (V', st') :=
    process_children (process fn kwargs) V ops (V, st) in
  visit fn kwargs (Instance c i v ops) ops V' st'.
Proof. reflexivity. Qed.

Lemma process_children_none (V0 : gmap key R) l acc :
  unvisited V0 l = [] ->
  process_children (process fn kwargs) V0 l acc = Return acc.
Proof.
  unfold unvisited. induction l as [|c l IH]; simpl; [done|].
  destruct (contains V0 c); simpl; [|done].
  intros Hf. by rewrite IH.
Qed.

Lemma loop_children (V0 : gmap key R) l :
  Forall (simulates fn kwargs) l ->
  forall stack (V : gmap key R) st,
  exists n,
    (n + length (unvisited V0 l) <= 2 * list_sum (List.map size l))%nat /\
    forall k, loop (n + k) fn kwargs (rev (unvisited V0 l) ++ stack) V st =
              let? (V', st') :=
                process_children (process fn kwargs) V0 l (V, st) in
              loop k fn kwargs stack V' st'.
Proof.
  unfold unvisited.
  induction 1 as [|c l Hc _ IH]; intros stack V st; simpl.
  - exists 0%nat. split; [lia|done].
  - pose proof (size_pos c) as Hpos.
    destruct (contains V0 c) eqn:Hin; simpl.
    + destruct (IH stack V st) as [n [Hn Heq]].
      exists n. split; [lia|]. intros k. rewrite Heq.
      by destruct (process_children _ V0 l (V, st)) as [[V1 st1]| | |].
    + destruct (IH (c :: stack) V st) as [n [Hn Heq]].
      rewrite <- app_assoc. simpl.
      destruct (process_children _ V0 l (V, st)) as [[V1 st1]| | |] eqn:Hl.
      * destruct (Hc stack V1 st1) as [m [Hm Heqc]].
        exists (n + m)%nat. split; [lia|]. intros k.
        rewrite <- Nat.add_assoc, Heq. simpl. apply Heqc.
      * exists n. split; [lia|]. intros k. by rewrite Heq.
      * exists n. split; [lia|]. intros k. by rewrite Heq.
      * exists n. split; [lia|]. intros k. by rewrite Heq.
Qed.

Lemma loop_process e : simulates fn kwargs e.
Proof.
  induction e as [z|s| | |c i v ops _ IH] using obj_ind';
    try (intros stack V st; exists 1%nat; split; [simpl; lia|done]).
  intros stack V st.
  destruct (unvisited V ops) as [|u f] eqn:Hf.
  - exists 1%nat. split; [simpl; lia|]. intros k.
    change (1 + k)%nat with (S k). rewrite loop_visit by done.
    by rewrite process_Instance, process_children_none.
  - destruct (loop_children V ops IH (Instance c i v ops :: stack) V st)
      as [n [Hn Heq]].
    rewrite Hf in Hn. simpl in Hn.
    destruct (process_children (process fn kwargs) V ops (V, st))
      as [[V1 st1]| | |] eqn:Hl.
    + exists (S (n + 1))%nat. split; [simpl; lia|]. intros k.
      replace (S (n + 1) + k)%nat with (S (n + S k)) by lia.
      rewrite loop_push by (by rewrite Hf).
      rewrite Heq, process_Instance, Hl. simpl.
      apply loop_visit.
      apply filter_unvisited_nil.
      eapply process_children_grows; [|by intros o|exact Hl].
      eapply Forall_impl; [exact IH|]. intros o _. apply process_grows.
    + exists (S n). split; [simpl; lia|]. intros k.
      change (S n + k)%nat with (S (n + k)).
      rewrite loop_push by (by rewrite Hf).
      by rewrite Heq, process_Instance, Hl.
    + exists (S n). split; [simpl; lia|]. intros k.
      change (S n + k)%nat with (S (n + k)).
      rewrite loop_push by (by rewrite Hf).
      by rewrite Heq, process_Instance, Hl.
    + exists (S n). split; [simpl; lia|]. intros k.
      change (S n + k)%nat with (S (n + k)).
      rewrite loop_push by (by rewrite Hf).
      by rewrite Heq, process_Instance, Hl.
Qed.

(** The visitor computes what the recursive account computes: the
    iteration bound is never reached. *)
Theorem postvisitor_process expr st :
  postvisitor expr fn kwargs st =
  let? (V, st') := process fn kwargs expr ∅ st in
  match V !! hashkey expr with
  | Some r => Return (r, st')
  | None => Raise (KeyError (hashkey expr))
  end.
Proof.
  unfold postvisitor.
  destruct (loop_process expr [] ∅ st) as [n [Hn Heq]].
  pose proof (size_pos expr) as Hpos.
  replace (2 * size expr)%nat with (n + S (2 * size expr - n - 1))%nat by lia.
  rewrite Heq.
  by destruct (process fn kwargs expr ∅ st) as [[V st']| | |].
Qed.
End refinement.

Lemma visit_inv {St R} (fn : obj -> list R -> gmap string obj -> M St R)
    kwargs e ops (V : gmap key R) st V' st' :
  visit fn kwargs e ops V st = Return (V', st') ->
  exists r, V' = <[hashkey e := r]> V.
Proof.
  unfold visit. destruct (lookup_all V ops) as [args| | |]; try done.
  cbn [bind]. destruct (fn e args kwargs st) as [[r st1]| | |]; try done.
  cbn [bind]. intros [= <- <-]. by exists r.
Qed.

Lemma process_binary {St R} (fn : obj -> list R -> gmap string obj -> M St R)
    kwargs c i v a b (V : gmap key R) st :
  process fn kwargs (Instance c i v [a; b]) V st =
  let? (V1, st1) :=
    (if contains V b then Return (V, st) else process fn kwargs b V st) in
  let? (V2, st2) :=
    (if contains V a then Return (V1, st1) else process fn kwargs a V1 st1) in
  visit fn kwargs (Instance c i v [a; b]) [a; b] V2 st2.
Proof.
  rewrite process_Instance. simpl.
  destruct (contains V b), (contains V a); simpl; try done;
    destruct (process fn kwargs b V st) as [[]| | |]; simpl; try done;
    by destruct (process fn kwargs a _ _) as [[]| | |].
Qed.

(** ** Symbolic execution from an arbitrary interpreter state *)

(** Symbolic execution of a program from an arbitrary interpreter state. *)
Ltac py_lookup :=
  first [ rewrite lookup_empty
        | rewrite lookup_insert_eq
        | rewrite lookup_insert_ne by (intros [=]; lia) ].

Ltac py_run :=
  repeat first
    [ progress
        (cbn [bind mbind' lift ret raise visit operand index lookup_all
              process_children fst snd contains hashkey get_value
              get_operands differentiate py_binop dunder rdunder
              __add__ __sub__ __mul__ __truediv__ __pow__
              __radd__ __rsub__ __rmul__ __rtruediv__ __rpow__
              forward reflected construct new is_number is_str
              builtin_binop lookup list_lookup negb])
    | py_lookup
    | rewrite getitem_var
    | rewrite py_eq_str
    | rewrite bool_decide_eq_true_2 by done
    | rewrite bool_decide_eq_false_2 by done
    | rewrite process_Instance
    | progress unfold mbind', lift, ret, visit, operand, forward, reflected,
        new, symbol, number, __add__, __sub__, __mul__, __truediv__, __pow__,
        __radd__, __rsub__, __rmul__, __rtruediv__, __rpow__, contains, index ].

Ltac py_exec prog :=
  unfold prog, mbind'; simpl; rewrite postvisitor_process; py_run.

(** ** Node model *)

(** C9: [Symbol(v)] raises [TypeError] whenever [v] is not a string and
    [Number(w)] raises [TypeError] whenever [w] is not a number; nothing is
    returned, so no node is produced. *)
Theorem terminal_constructors_validate (v w : obj) (st : nat) :
  is_str v = false -> is_number w = false ->
  construct Symbol [v] st = Raise (TypeError "Symbol value must be a string.")
  /\
  construct Number [w] st = Raise (TypeError "Number value must be a number.").
Proof. intros Hv Hw. simpl. by rewrite Hv, Hw. Qed.

Lemma terminal_constructors_validate_witness :
  construct Symbol [PyInt 3] 0%nat =
    Raise (TypeError "Symbol value must be a string.") /\
  construct Number [PyStr "three"] 0%nat =
    Raise (TypeError "Number value must be a number.").
Proof.
  apply (terminal_constructors_validate (PyInt 3) (PyStr "three") 0%nat);
    reflexivity.
Defined.

Lemma terminal_constructors_accept (s : string) (z : Z) (st : nat) :
  symbol s st = Return (Instance Symbol st (Some (PyStr s)) [], S st) /\
  number z st = Return (Instance Number st (Some (PyInt z)) [], S st).
Proof. done. Qed.

(** C5, on the code: the reflected methods answer [NotImplemented] for an
    operand that is neither a number nor an expression, so a bad left
    operand raises [TypeError]; the forward methods do not look at the
    operand, so a bad right operand ends up inside a new operator node. *)
Theorem bad_operand_left_raises_right_builds
    (op : binop) (x bad : obj) (st : nat) :
  is_expression x = true -> is_expression bad = false ->
  is_number bad = false ->
  py_binop op bad x st = Raise (TypeError "unsupported operand type(s)") /\
  py_binop op x bad st =
  Return (Instance (class_of_binop op) st None [x; bad], S st).
Proof.
  destruct x as [| | | |c i v ops]; try done. intros _ Hbad Hnum.
  split.
  - destruct bad; try done; by destruct op.
  - destruct op; simpl;
      unfold __add__, __sub__, __mul__, __truediv__, __pow__, forward, mbind';
      by rewrite Hnum.
Qed.

Lemma bad_operand_left_raises_right_builds_witness :
  py_binop OpAdd (PyStr "foo") (Instance Symbol 0 (Some (PyStr "x")) []) 1%nat
    = Raise (TypeError "unsupported operand type(s)") /\
  py_binop OpAdd (Instance Symbol 0 (Some (PyStr "x")) []) (PyStr "foo") 1%nat
    = Return (Instance Add 1 None
                [Instance Symbol 0 (Some (PyStr "x")) []; PyStr "foo"], 2%nat).
Proof.
  apply (bad_operand_left_raises_right_builds OpAdd
           (Instance Symbol 0 (Some (PyStr "x")) []) (PyStr "foo") 1%nat);
    reflexivity.
Defined.

Lemma paren_render (self expr : obj) (s : string) :
  well_formed self = true -> well_formed expr = true ->
  paren self expr (Return s) = Return (render_side self expr s).
Proof.
  intros Hself Hexpr. unfold paren, render_side.
  destruct self as [| | | |c i v ops]; try done.
  destruct expr as [| | | |c' i' v' ops']; try done.
  destruct c, v as [[]|], ops as [|? [|? [|]]]; try done;
    destruct c', v' as [[]|], ops' as [|? [|? [|]]]; try done.
Qed.

(** C6: on the expressions of the data model, [str] is the rendering
    contract: both sides joined by the glyph between single spaces, a side
    in parentheses exactly when its tier is strictly below the node's. *)
Theorem str_is_render (o : obj) :
  well_formed o = true -> py_str o = Return (render o).
Proof.
  revert o. apply (well_formed_ind (fun o => py_str o = Return (render o)));
    [done|done|].
  intros op i a b Ha Hb IHa IHb.
  assert (Hself : well_formed (Instance (class_of_binop op) i None [a; b]) = true).
  { destruct op; simpl; by rewrite Ha, Hb. }
  assert (Hstr : py_str (Instance (class_of_binop op) i None [a; b]) =
    let? sa := paren (Instance (class_of_binop op) i None [a; b]) a (py_str a) in
    let? g := get_symbol (Instance (class_of_binop op) i None [a; b]) in
    let? sb := paren (Instance (class_of_binop op) i None [a; b]) b (py_str b) in
    Return (sa +:+ " " +:+ g +:+ " " +:+ sb)).
  { by destruct op. }
  rewrite Hstr, IHa, IHb by done.
  rewrite !paren_render by done. by destruct op.
Qed.

Lemma str_is_render_witness :
  py_str (Instance Mul 4 None
            [Instance Add 2 None [Instance Symbol 0 (Some (PyStr "a")) [];
                                  Instance Number 1 (Some (PyInt 2)) []];
             Instance Symbol 3 (Some (PyStr "c")) []])
  = Return "(a + 2) * c".
Proof.
  apply (str_is_render
    (Instance Mul 4 None
            [Instance Add 2 None [Instance Symbol 0 (Some (PyStr "a")) [];
                                  Instance Number 1 (Some (PyInt 2)) []];
             Instance Symbol 3 (Some (PyStr "c")) []])).
  reflexivity.
Defined.

(** A right operand of equal tier is not parenthesized: [a - (b - c)]
    prints as [a - b - c]. *)
Lemma str_equal_tier :
  (a <- symbol "a" ;; b <- symbol "b" ;; c <- symbol "c" ;;
   bc <- py_binop OpSub b c ;; e <- py_binop OpSub a bc ;;
   lift (py_str e)) 0%nat = Return ("a - b - c", 5%nat).
Proof. reflexivity. Qed.

(** ** Traversal *)

Lemma shared_symbol_built :
  shared_symbol 0%nat = Return (shared_symbol_graph, 4%nat) /\
  well_formed shared_symbol_graph = true /\ consistent shared_symbol_graph.
Proof. split; [done|]. split; [done|]. by apply (bool_decide_unpack _). Qed.

(** C2, on the code: in the graph above every fold function is applied to
    the shared symbol [s] twice.  The node is pushed by [root] and again by
    [p] before it has a result, and a popped node whose operands all have
    results is folded without a look at [visited]; the second result
    replaces the first. *)
Theorem postvisitor_folds_shared_node_twice {St R}
    (fn : obj -> list R -> gmap string obj -> M St R)
    (kwargs : gmap string obj) (st : St) :
  postvisitor shared_symbol_graph fn kwargs st =
  (r1 <- fn node_two [] kwargs ;;
   r0 <- fn node_s [] kwargs ;;
   r2 <- fn node_p [r0; r1] kwargs ;;
   r0' <- fn node_s [] kwargs ;;
   fn shared_symbol_graph [r0'; r2] kwargs) st.
Proof.
  rewrite postvisitor_process.
  unfold shared_symbol_graph, node_p, node_s, node_two, mbind'.
  repeat (py_run;
          try match goal with
              | |- context [fn ?e ?a kwargs ?s] =>
                  destruct (fn e a kwargs s) as [[? ?]| | |]
              end);
    reflexivity.
Qed.

(** The calls, in order, as recorded by [record_call]. *)
Lemma shared_symbol_calls :
  postvisitor shared_symbol_graph record_call ∅ [] =
  Return (tt, [KId 1; KId 0; KId 2; KId 0; KId 3]).
Proof. vm_compute. reflexivity. Qed.

(** ** Differentiation: the rules on the examples *)

(** C7: applied to an object whose class has no registered rule,
    [differentiate] raises [NotImplementedError] with the message
    "Cannot differentiate a " followed by the name of that class: [int],
    [str], [NoneType], [NotImplementedType] for the builtin objects,
    [Expression], [Operator], [Terminal] for direct instances of the base
    classes, whatever the other arguments are. *)
Theorem differentiate_unsupported_variant
    (expr : obj) (o : list obj) (kwargs : gmap string obj) (st : nat) :
  has_rule expr = false ->
  differentiate expr o kwargs st =
  Raise (NotImplementedError
           match expr with
           | PyInt _ => "Cannot differentiate a int"
           | PyStr _ => "Cannot differentiate a str"
           | PyNone => "Cannot differentiate a NoneType"
           | PyNotImplemented => "Cannot differentiate a NotImplementedType"
           | Instance Expression _ _ _ => "Cannot differentiate a Expression"
           | Instance Operator _ _ _ => "Cannot differentiate a Operator"
           | Instance Terminal _ _ _ => "Cannot differentiate a Terminal"
           | Instance _ _ _ _ => "a class with a rule"
           end).
Proof. destruct expr as [| | | |[] i v ops]; by intros. Qed.

Lemma differentiate_unsupported_variant_witness :
  differentiate (Instance Operator 2 None [node_s; node_two]) [PyInt 1; PyInt 0]
                ∅ 3%nat =
  Raise (NotImplementedError "Cannot differentiate a Operator").
Proof.
  apply (differentiate_unsupported_variant
           (Instance Operator 2 None [node_s; node_two]) [PyInt 1; PyInt 0]
           ∅ 3%nat).
  reflexivity.
Defined.

(** The error goes through the visitor unchanged. *)
Lemma postvisitor_unsupported_variant :
  (t <- construct Terminal [PyInt 5] ;;
   postvisitor t differentiate (var_kwargs "x")) 0%nat =
  Raise (NotImplementedError "Cannot differentiate a Terminal").
Proof. reflexivity. Qed.

(** C3 as stated fails: the exponent of the inner [Pow] is not the literal
    [Number(2)]. *)
Lemma power_rule_exponent_not_literal :
  ~ exists v st,
      power_example 0%nat = Return (v, st) /\
      erase v = sh_op Mul (sh_op Mul (sh_number 3)
                                     (sh_op Pow (sh_symbol "x") (sh_number 2)))
                          (sh_number 1).
Proof. intros (v & st & Hrun & Hv). vm_compute in Hrun. by injection Hrun as <- _. Qed.

(** C3, amended: the derivative of [x ^ 3] has the shape
    [Mul(Mul(Number(3), Pow(x, Sub(Number(3), Number(1)))), Number(1))]: the
    exponent of the inner [Pow] is the unevaluated node [3 - 1]. *)
Theorem power_rule_shape (n : nat) :
  exists v st,
    power_example n = Return (v, st) /\
    erase v =
    sh_op Mul
      (sh_op Mul (sh_number 3)
         (sh_op Pow (sh_symbol "x") (sh_op Sub (sh_number 3) (sh_number 1))))
      (sh_number 1).
Proof.
  eexists _, _. split; [py_exec power_example; reflexivity|reflexivity].
Qed.

(** C1 as stated fails: a variable exponent raises nothing. *)
Lemma variable_exponent_does_not_raise :
  ~ exists e, variable_exponent_example 0%nat = Raise e.
Proof. intros [e He]. vm_compute in He. discriminate. Qed.

(** C4 as stated fails: the derivative of [number(5)] is not a [Number]
    node. *)
Lemma terminal_derivative_not_a_node :
  ~ exists v st,
      number_example 5 0%nat = Return (v, st) /\ erase v = sh_number 0.
Proof. intros (v & st & Hrun & Hv). vm_compute in Hrun. by injection Hrun as <- _. Qed.

(** ** Differentiation of well-formed expressions *)

Lemma differentiate_operator op i a b da db kwargs st :
  is_expression a = true -> is_expression b = true ->
  good da = true -> good db = true ->
  exists v st',
    differentiate (Instance (class_of_binop op) i None [a; b]) [da; db]
                  kwargs st = Return (v, st') /\ good v = true.
Proof.
  intros Ha Hb Hda Hdb.
  destruct a; try done; destruct b; try done;
    destruct da; try done; destruct db; try done;
    destruct op; eexists _, _; (split; [reflexivity|reflexivity]).
Qed.

Lemma lookup_all_good (V : gmap key obj) l args :
  memo_good V -> lookup_all V l = Return args ->
  Forall (fun v => good v = true) args.
Proof.
  intros HV. revert args. induction l as [|o l IH]; intros args; simpl.
  - intros [= <-]. constructor.
  - destruct (V !! hashkey o) as [r|] eqn:Hr; [|done].
    destruct (lookup_all V l) as [rs| | |]; try done.
    simpl. intros [= <-]. constructor; [|by apply IH].
    by apply (HV _ _ Hr).
Qed.

Lemma visit_operator op i a b kwargs (V : gmap key obj) st :
  is_expression a = true -> is_expression b = true ->
  memo_good V -> contains V a = true -> contains V b = true ->
  exists V' st',
    visit differentiate kwargs (Instance (class_of_binop op) i None [a; b])
          [a; b] V st = Return (V', st') /\ memo_good V'.
Proof.
  intros Ha Hb HV Hina Hinb. unfold visit.
  destruct (lookup_all_contains V [a; b]) as (args & Hargs & Hlen);
    [by repeat constructor|].
  pose proof (lookup_all_good V _ _ HV Hargs) as Hgood.
  rewrite Hargs. destruct args as [|da [|db [|]]]; try done.
  apply Forall_cons in Hgood as [Hda Hgood].
  apply Forall_cons in Hgood as [Hdb _].
  destruct (differentiate_operator op i a b da db kwargs st Ha Hb Hda Hdb)
    as (v & st' & Hv & Hgv).
  cbn [bind]. rewrite Hv. cbn [bind]. eexists _, _. split; [done|].
  by apply map_Forall_insert_2.
Qed.

Lemma process_differentiate kwargs c :
  well_formed c = true -> differentiates kwargs c.
Proof.
  revert c. apply well_formed_ind; unfold differentiates.
  - intros i z V st HV. left. eexists _, _. split; [reflexivity|].
    by apply map_Forall_insert_2.
  - intros i s V st HV. rewrite process_Instance.
    cbn [process_children bind visit lookup_all differentiate mbind' lift
         get_value].
    unfold getitem. destruct (kwargs !! "var") as [var|] eqn:Hvar.
    + left. unfold mbind', lift. cbn [bind]. destruct (py_eq (PyStr s) var);
        (eexists _, _; split; [reflexivity|by apply map_Forall_insert_2]).
    + by right.
  - intros op i a b Ha Hb IHa IHb V st HV. rewrite process_binary.
    assert (Hsym : forall x, (x = a \/ x = b) -> contains_symbol x = true ->
      contains_symbol (Instance (class_of_binop op) i None [a; b]) = true).
    { intros x Hx Hs. simpl.
      destruct Hx as [-> | ->]; rewrite Hs; destruct op; simpl;
        by rewrite ?orb_true_r. }
    assert (Hb1 : (exists V1 st1,
               (if contains V b then Return (V, st)
                else process differentiate kwargs b V st) = Return (V1, st1) /\
               memo_good V1 /\ grows V V1 /\ contains V1 b = true) \/
             ((if contains V b then Return (V, st)
               else process differentiate kwargs b V st)
                = Raise (KeyError (KStr "var")) /\
              kwargs !! "var" = None /\ contains_symbol b = true)).
    { destruct (contains V b) eqn:Hin.
      - left. eexists _, _. repeat split; try done. by intros o.
      - destruct (IHb V st HV) as [(V1 & st1 & H1 & HV1)|?]; [left|by right].
        destruct (process_grows _ _ _ _ _ _ _ H1). by eexists _, _. }
    destruct Hb1 as [(V1 & st1 & -> & HV1 & Hg1 & Hinb)|(-> & ? & ?)];
      [|right; eauto].
    cbn [bind].
    assert (Ha1 : (exists V2 st2,
               (if contains V a then Return (V1, st1)
                else process differentiate kwargs a V1 st1) = Return (V2, st2) /\
               memo_good V2 /\ grows V1 V2 /\ contains V2 a = true) \/
             ((if contains V a then Return (V1, st1)
               else process differentiate kwargs a V1 st1)
                = Raise (KeyError (KStr "var")) /\
              kwargs !! "var" = None /\ contains_symbol a = true)).
    { destruct (contains V a) eqn:Hin.
      - left. eexists _, _. repeat split; try done; [by intros o|by apply Hg1].
      - destruct (IHa V1 st1 HV1) as [(V2 & st2 & H2 & HV2)|?]; [left|by right].
        destruct (process_grows _ _ _ _ _ _ _ H2). by eexists _, _. }
    destruct Ha1 as [(V2 & st2 & -> & HV2 & Hg2 & Hina)|(-> & ? & ?)];
      [|right; eauto].
    cbn [bind]. left.
    apply visit_operator; auto using well_formed_expression.
Qed.

Lemma postvisitor_differentiate_returns root kwargs V' st st' :
  process differentiate kwargs root ∅ st = Return (V', st') ->
  memo_good V' ->
  exists v, postvisitor root differentiate kwargs st = Return (v, st') /\
            good v = true.
Proof.
  intros Hrun HV'. rewrite postvisitor_process, Hrun. cbn [bind].
  destruct (process_grows _ _ _ _ _ _ _ Hrun) as [_ Hin].
  unfold contains in Hin.
  destruct (V' !! hashkey root) as [r|] eqn:Hr; [|done].
  exists r. split; [done|]. by apply (HV' _ _ Hr).
Qed.

(** C4, amended: with [var] given, differentiating an expression of the
    data model always returns, and returns a bare number or an expression
    node; the derivative of [number(5)] is the bare number 0, that of
    [symbol("x")] in [x] the bare number 1, that of [symbol("y")] in [x] the
    bare number 0. *)
Theorem differentiation_returns_number_or_node
    (root : obj) (kwargs : gmap string obj) (var : obj) (st n : nat) :
  well_formed root = true -> kwargs !! "var" = Some var ->
  (exists v st',
      postvisitor root differentiate kwargs st = Return (v, st') /\
      good v = true) /\
  number_example 5 n = Return (PyInt 0, S n) /\
  symbol_example "x" n = Return (PyInt 1, S n) /\
  symbol_example "y" n = Return (PyInt 0, S n).
Proof.
  intros Hwf Hvar. split; [|repeat split].
  - destruct (process_differentiate kwargs root Hwf ∅ st)
      as [(V' & st' & Hrun & HV')|(_ & Hnone & _)];
      [apply map_Forall_empty| |congruence].
    destruct (postvisitor_differentiate_returns _ _ _ _ _ Hrun HV') as [v Hv].
    by exists v, st'.
  - py_exec number_example. reflexivity.
  - py_exec symbol_example. reflexivity.
  - py_exec symbol_example. reflexivity.
Qed.

Lemma differentiation_returns_number_or_node_witness :
  (exists v st',
      postvisitor shared_symbol_graph differentiate (var_kwargs "x") 4%nat
        = Return (v, st') /\ good v = true) /\
  number_example 5 0%nat = Return (PyInt 0, 1%nat) /\
  symbol_example "x" 0%nat = Return (PyInt 1, 1%nat) /\
  symbol_example "y" 0%nat = Return (PyInt 0, 1%nat).
Proof.
  apply (differentiation_returns_number_or_node
           shared_symbol_graph (var_kwargs "x") (PyStr "x") 4%nat 0%nat);
    reflexivity.
Defined.

(** A sum of terminals differentiates to a bare number as well. *)
Lemma sum_of_symbols_example (n : nat) :
  (x <- symbol "x" ;; y <- symbol "y" ;; e <- py_binop OpAdd x y ;;
   postvisitor e differentiate (var_kwargs "x")) n = Return (PyInt 1, (3 + n)%nat).
Proof.
  unfold mbind'; simpl; rewrite postvisitor_process; py_run. reflexivity.
Qed.

(** ** Which nodes the Symbol rule reaches *)

Section symbol_rule.
Variable root : obj.
Variable kwargs : gmap string obj.
Hypothesis Hcons : consistent root.
Hypothesis Hvar : kwargs !! "var" = None.

Lemma symbol_free_insert c r (V : gmap key obj) :
  In c (subterms root) -> contains_symbol c = false ->
  symbol_free root V -> symbol_free root (<[hashkey c := r]> V).
Proof.
  intros Hc Hfree HV d Hd Hin.
  apply contains_insert in Hin as [Hk|Hin]; [|by apply HV].
  unfold consistent in Hcons. rewrite List.Forall_forall in Hcons.
  specialize (Hcons d Hd). rewrite List.Forall_forall in Hcons.
  by rewrite (Hcons c Hc Hk).
Qed.

(** With no [var] keyword, a node whose processing returns contains no
    [Symbol]. *)
Lemma process_return_symbol_free c :
  well_formed c = true -> In c (subterms root) ->
  forall (V : gmap key obj) st V' st',
    symbol_free root V ->
    process differentiate kwargs c V st = Return (V', st') ->
    contains_symbol c = false /\ symbol_free root V'.
Proof.
  revert c.
  apply (well_formed_ind (fun c =>
    In c (subterms root) ->
    forall (V : gmap key obj) (st : nat) (V' : gmap key obj) (st' : nat),
      symbol_free root V ->
      process differentiate kwargs c V st = Return (V', st') ->
      contains_symbol c = false /\ symbol_free root V')).
  - intros i z Hin V st V' st' HV Hrun.
    rewrite process_Instance in Hrun. cbn [process_children bind] in Hrun.
    apply visit_inv in Hrun as [r ->].
    split; [done|]. by apply symbol_free_insert.
  - intros i s Hin V st V' st' HV Hrun.
    rewrite process_Instance in Hrun.
    cbn [process_children bind visit lookup_all differentiate mbind' lift
         get_value] in Hrun.
    unfold getitem in Hrun. by rewrite Hvar in Hrun.
  - intros op i a b Ha Hb IHa IHb Hin V st V' st' HV Hrun.
    assert (Hina : In a (subterms root)).
    { eapply subterms_operand; [exact Hin|]. simpl. auto. }
    assert (Hinb : In b (subterms root)).
    { eapply subterms_operand; [exact Hin|]. simpl. auto. }
    rewrite process_binary in Hrun.
    assert (Hb1 : exists V1 st1,
      (if contains V b then Return (V, st)
       else process differentiate kwargs b V st) = Return (V1, st1) /\
      contains_symbol b = false /\ symbol_free root V1).
    { destruct (contains V b) eqn:Hcb.
      - exists V, st. split; [done|]. split; [by apply HV|done].
      - destruct (process differentiate kwargs b V st) as [[V1 st1]| | |]
          eqn:Hpb; try done.
        exists V1, st1. split; [done|]. by apply (IHb Hinb V st V1 st1). }
    destruct Hb1 as (V1 & st1 & Hrb & Hfb & HV1).
    rewrite Hrb in Hrun. cbn [bind] in Hrun.
    assert (Ha1 : exists V2 st2,
      (if contains V a then Return (V1, st1)
       else process differentiate kwargs a V1 st1) = Return (V2, st2) /\
      contains_symbol a = false /\ symbol_free root V2).
    { destruct (contains V a) eqn:Hca.
      - exists V1, st1. split; [done|]. split; [by apply HV|done].
      - destruct (process differentiate kwargs a V1 st1) as [[V2 st2]| | |]
          eqn:Hpa; try done.
        exists V2, st2. split; [done|]. by apply (IHa Hina V1 st1 V2 st2). }
    destruct Ha1 as (V2 & st2 & Hra & Hfa & HV2).
    rewrite Hra in Hrun. cbn [bind] in Hrun.
    apply visit_inv in Hrun as [r ->].
    assert (Hfree : contains_symbol
                      (Instance (class_of_binop op) i None [a; b]) = false).
    { simpl. rewrite Hfa, Hfb. by destruct op. }
    split; [done|]. by apply symbol_free_insert.
Qed.
End symbol_rule.

(** C10: only the [Symbol] rule reads [kwargs]; without the [var] keyword,
    differentiating a well-formed expression raises [KeyError] on "var"
    when it contains a [Symbol] node and returns when it contains none. *)
Theorem var_read_only_by_symbol_rule
    (root : obj) (kwargs : gmap string obj) (st : nat) :
  well_formed root = true -> consistent root -> kwargs !! "var" = None ->
  (exists v st',
      postvisitor root differentiate kwargs st =
      if contains_symbol root then Raise (KeyError (KStr "var"))
      else Return (v, st')) /\
  (forall expr o kwargs',
      is_symbol expr = false ->
      differentiate expr o kwargs = differentiate expr o kwargs').
Proof.
  intros Hwf Hcons Hvar. split.
  - destruct (process_differentiate kwargs root Hwf ∅ st)
      as [(V' & st' & Hrun & HV')|(Hrun & _ & Hsym)];
      [apply map_Forall_empty| |].
    + destruct (process_return_symbol_free root kwargs Hcons Hvar root Hwf
                  (subterms_self root) ∅ st V' st') as [-> _]; [|done|].
      { intros d _ Hd. by rewrite contains_empty in Hd. }
      destruct (postvisitor_differentiate_returns _ _ _ _ _ Hrun HV')
        as [v [Hv _]].
      by exists v, st'.
    + exists PyNone, st. by rewrite Hsym, postvisitor_process, Hrun.
  - intros expr o kwargs' Hexpr.
    destruct expr as [| | | |[] i v ops]; done.
Qed.

Lemma var_read_only_by_symbol_rule_witness :
  (exists (v : obj) (st' : nat),
      postvisitor shared_symbol_graph differentiate ∅ 4%nat =
      Raise (KeyError (KStr "var"))) /\
  (forall expr o kwargs',
      is_symbol expr = false ->
      differentiate expr o ∅ = differentiate expr o kwargs').
Proof.
  apply (var_read_only_by_symbol_rule shared_symbol_graph ∅ 4%nat).
  - reflexivity.
  - by apply (bool_decide_unpack _).
  - reflexivity.
Defined.

(** Without [var] and without symbols the derivative is returned. *)
Lemma no_symbol_no_var_example (n : nat) :
  (a <- number 2 ;; b <- number 3 ;; e <- py_binop OpMul a b ;;
   r <- postvisitor e differentiate ∅ ;; lift (py_str r)) n
  = Return ("0 * 3 + 0 * 2", (8 + n)%nat).
Proof.
  unfold mbind'; simpl; rewrite postvisitor_process; py_run. reflexivity.
Qed.


(** ** Further properties of the visitor *)

Lemma loop_ext {St R} (fn fn' : obj -> list R -> gmap string obj -> M St R)
    kwargs kwargs' :
  (forall e args st, fn e args kwargs st = fn' e args kwargs' st) ->
  forall fuel stack (V : gmap key R) st,
    loop fuel fn kwargs stack V st = loop fuel fn' kwargs' stack V st.
Proof.
  intros Hfn. induction fuel as [|fuel IH]; intros stack V st; [done|].
  destruct stack as [|e stack]; [done|]. simpl.
  destruct (get_operands e) as [ops| | |]; try done. simpl.
  destruct (unvisited V ops); [|by apply IH].
  destruct (lookup_all V ops) as [args| | |]; try done. simpl.
  rewrite Hfn. destruct (fn' e args kwargs' st) as [[r st']| | |]; try done.
  simpl. apply IH.
Qed.

Lemma loop_empty {St R} (fn : obj -> list R -> gmap string obj -> M St R)
    kwargs k (V : gmap key R) st :
  loop (S k) fn kwargs [] V st = Return (V, st).
Proof. done. Qed.

Lemma lookup_all_not_out_of_fuel {R} (V : gmap key R) l :
  lookup_all V l <> OutOfFuel.
Proof.
  induction l as [|o l IH]; simpl; [done|].
  destruct (V !! hashkey o); [|done].
  by destruct (lookup_all V l).
Qed.

Section termination.
Context {St R : Type}.
Variable fn : obj -> list R -> gmap string obj -> M St R.
Variable kwargs : gmap string obj.
Hypothesis Hfn : forall e args st, fn e args kwargs st <> OutOfFuel.

Lemma visit_not_out_of_fuel e ops (V : gmap key R) st :
  visit fn kwargs e ops V st <> OutOfFuel.
Proof.
  unfold visit. pose proof (lookup_all_not_out_of_fuel V ops) as Hl.
  destruct (lookup_all V ops) as [args| | |]; try done. cbn [bind].
  specialize (Hfn e args st).
  by destruct (fn e args kwargs st) as [[r st']| | |].
Qed.

Lemma process_not_out_of_fuel e :
  forall (V : gmap key R) st, process fn kwargs e V st <> OutOfFuel.
Proof.
  induction e as [| | | |c i v ops _ IH] using obj_ind'; try done.
  intros V st. rewrite process_Instance.
  assert (Hch : forall acc,
    process_children (process fn kwargs) V ops acc <> OutOfFuel).
  { induction IH as [|o l Ho _ IHl]; intros acc; simpl; [done|].
    specialize (IHl acc).
    destruct (process_children (process fn kwargs) V l acc)
      as [acc'| | |]; try done.
    cbn [bind]. destruct (contains V o); [done|apply Ho]. }
  specialize (Hch (V, st)).
  destruct (process_children (process fn kwargs) V ops (V, st))
    as [[V' st']| | |]; try done.
  cbn [bind]. apply visit_not_out_of_fuel.
Qed.
End termination.

(** X1: the loop ends.  For a fold function that itself terminates, the
    visitor never reaches its iteration bound, and more iterations change
    nothing: [2 * size expr] iterations are enough for every expression,
    shared nodes or not. *)
Theorem postvisitor_iteration_bound {St R}
    (fn : obj -> list R -> gmap string obj -> M St R)
    (kwargs : gmap string obj) (expr : obj) (st : St) (k : nat) :
  (forall e args s, fn e args kwargs s <> OutOfFuel) ->
  postvisitor expr fn kwargs st <> OutOfFuel /\
  loop (2 * size expr + k) fn kwargs [expr] ∅ st =
  loop (2 * size expr) fn kwargs [expr] ∅ st.
Proof.
  intros Hfn. split.
  - rewrite postvisitor_process.
    pose proof (process_not_out_of_fuel fn kwargs Hfn expr ∅ st) as Hp.
    destruct (process fn kwargs expr ∅ st) as [[V st']| | |]; try done.
    cbn [bind]. by destruct (V !! hashkey expr).
  - destruct (loop_process fn kwargs expr [] ∅ st) as [n [Hn Heq]].
    pose proof (size_pos expr) as Hpos.
    replace (2 * size expr + k)%nat
      with (n + S (2 * size expr - n - 1 + k))%nat by lia.
    replace (2 * size expr)%nat
      with (n + S (2 * size expr - n - 1))%nat at 2 by lia.
    rewrite !Heq.
    by destruct (process fn kwargs expr ∅ st) as [[V st']| | |].
Qed.

Lemma postvisitor_iteration_bound_witness :
  postvisitor shared_symbol_graph record_call ∅ [] <> OutOfFuel /\
  loop (2 * size shared_symbol_graph + 7) record_call ∅
       [shared_symbol_graph] ∅ [] =
  loop (2 * size shared_symbol_graph) record_call ∅
       [shared_symbol_graph] ∅ [].
Proof.
  apply (postvisitor_iteration_bound record_call ∅ shared_symbol_graph [] 7).
  intros e args s. unfold record_call. discriminate.
Defined.

(** X12: [differentiate] reads no keyword but [var]: two sets of keyword
    arguments that agree on [var] give the same derivative. *)
Theorem differentiate_reads_only_var
    (root : obj) (kwargs kwargs' : gmap string obj) (st : nat) :
  kwargs !! "var" = kwargs' !! "var" ->
  postvisitor root differentiate kwargs st =
  postvisitor root differentiate kwargs' st.
Proof.
  intros Hvar. unfold postvisitor.
  rewrite (loop_ext differentiate differentiate kwargs kwargs'); [done|].
  intros e args s.
  destruct e as [| | | |[] i v ops]; try done.
  simpl. unfold mbind', lift, getitem. by rewrite Hvar.
Qed.

Lemma differentiate_reads_only_var_witness :
  postvisitor shared_symbol_graph differentiate (var_kwargs "x") 4%nat =
  postvisitor shared_symbol_graph differentiate
    (<["order" := PyInt 2]> (var_kwargs "x")) 4%nat.
Proof.
  apply (differentiate_reads_only_var shared_symbol_graph (var_kwargs "x")
           (<["order" := PyInt 2]> (var_kwargs "x")) 4%nat).
  reflexivity.
Defined.

Lemma bind_return {A} (m : outcome A) : bind m Return = m.
Proof. by destruct m. Qed.

Lemma bind_assoc {A B C} (m : outcome A) (f : A -> outcome B)
    (g : B -> outcome C) :
  bind (bind m f) g = bind m (fun a => bind (f a) g).
Proof. by destruct m. Qed.

Lemma process_children_app {St R}
    (f : obj -> gmap key R -> St -> outcome (gmap key R * St))
    (V0 : gmap key R) l1 l2 acc :
  process_children f V0 (l1 ++ l2) acc =
  let? acc' := process_children f V0 l2 acc in
  process_children f V0 l1 acc'.
Proof.
  induction l1 as [|c l1 IH]; simpl.
  - by rewrite bind_return.
  - by rewrite IH, bind_assoc.
Qed.

(** X4: a node whose last operand is a number, a string, [None] or
    [NotImplemented] (what [x + "foo"] builds) cannot be traversed: the
    visitor raises [AttributeError] on [operands], for every fold function
    and before the function is applied to anything. *)
Theorem postvisitor_bare_operand {St R}
    (fn : obj -> list R -> gmap string obj -> M St R)
    (kwargs : gmap string obj) (c : class) (i : nat) (v : option obj)
    (ops : list obj) (bad : obj) (st : St) :
  is_expression bad = false ->
  postvisitor (Instance c i v (ops ++ [bad])) fn kwargs st =
  Raise (AttributeError "operands").
Proof.
  intros Hbad. rewrite postvisitor_process, process_Instance.
  rewrite process_children_app. simpl. rewrite contains_empty. simpl.
  by destruct bad.
Qed.

Lemma postvisitor_bare_operand_witness :
  postvisitor (Instance Add 1 None
                 [Instance Symbol 0 (Some (PyStr "x")) []; PyStr "foo"])
              differentiate (var_kwargs "x") 2%nat =
  Raise (AttributeError "operands").
Proof.
  apply (postvisitor_bare_operand differentiate (var_kwargs "x") Add 1%nat None
           [Instance Symbol 0 (Some (PyStr "x")) []] (PyStr "foo") 2%nat).
  reflexivity.
Defined.

Lemma lookup_all_ext {R} (V V' : gmap key R) l :
  (forall o, In o l -> V' !! hashkey o = V !! hashkey o) ->
  lookup_all V' l = lookup_all V l.
Proof.
  induction l as [|o l IH]; intros Hl; simpl; [done|].
  rewrite (Hl o) by (by left). rewrite IH; [done|].
  intros o' Ho'. apply Hl. by right.
Qed.

Lemma subterms_flat_map l c d :
  In c l -> In d (subterms c) -> In d (flat_map subterms l).
Proof. intros Hc Hd. apply in_flat_map. by exists c. Qed.

Lemma consistent_eq root a b :
  consistent root -> In a (subterms root) -> In b (subterms root) ->
  hashkey a = hashkey b -> a = b.
Proof.
  unfold consistent. rewrite List.Forall_forall. intros H Ha Hb Hk.
  specialize (H a Ha). rewrite List.Forall_forall in H. by apply H.
Qed.

Section distinct_nodes.
Context {St R : Type}.
Variable fn : obj -> list R -> gmap string obj -> M St R.
Variable kwargs : gmap string obj.

Lemma process_children_distinct (V0 : gmap key R) l :
  Forall (folds_distinct fn kwargs) l ->
  forall (V : gmap key R) st,
    NoDup (List.map hashkey (flat_map subterms l)) ->
    (forall d, In d (flat_map subterms l) -> V !! hashkey d = None) ->
    (forall c, In c l -> contains V0 c = false) ->
    tracks_list (fold_operands (postorder fn kwargs) l st)
      (process_children (process fn kwargs) V0 l (V, st))
      (fun rs V' =>
         lookup_all V' l = Return rs /\
         forall k, ~ In k (List.map hashkey (flat_map subterms l)) ->
                   V' !! k = V !! k).
Proof.
  induction 1 as [|c l Hc _ IH]; intros V st Hnodup Hfresh Hnew.
  - simpl. by exists V.
  - simpl in Hnodup, Hfresh. rewrite map_app in Hnodup.
    apply NoDup_app in Hnodup as (Hndc & Hdisj & Hndl).
    assert (Hdisj' : forall d, In d (subterms c) ->
              ~ In (hashkey d) (List.map hashkey (flat_map subterms l))).
    { intros d Hd Hin. apply (Hdisj (hashkey d)).
      - apply list_elem_of_In, in_map, Hd.
      - by apply list_elem_of_In. }
    specialize (IH V st Hndl).
    cbn [fold_operands process_children].
    destruct (fold_operands (postorder fn kwargs) l st)
      as [[rs st1]| | |] eqn:Hfold; cbn [tracks_list bind] in *.
    + destruct IH as (V1 & -> & Hlook & Hout).
      { intros d Hd. apply Hfresh, in_or_app. by right. }
      { intros c' Hc'. apply Hnew. by right. }
      cbn [bind]. rewrite (Hnew c) by (by left). cbn [fst snd].
      specialize (Hc V1 st1 Hndc). unfold tracks in Hc.
      destruct (postorder fn kwargs c st1) as [[r st2]| | |];
        cbn [bind]; try (apply Hc; intros d Hd; rewrite Hout;
          [apply Hfresh, in_or_app; by left|by apply Hdisj']).
      destruct Hc as (V2 & -> & Hr & Hout2).
      { intros d Hd. rewrite Hout by (by apply Hdisj').
        apply Hfresh, in_or_app. by left. }
      exists V2. split; [done|]. split.
      * simpl. rewrite Hr.
        rewrite (lookup_all_ext V1 V2 l), Hlook; [done|].
        intros o Ho. apply Hout2. intros Hin.
        apply in_map_iff in Hin as (d & Hk & Hd).
        apply (Hdisj' d Hd). rewrite Hk.
        apply in_map, (subterms_flat_map l o); [done|apply subterms_self].
      * intros k Hk. cbn [flat_map] in Hk. rewrite map_app in Hk.
        rewrite Hout2, Hout; [done| |];
          intros Hin; apply Hk, in_or_app; auto.
    + rewrite IH; [done| |].
      * intros d Hd. apply Hfresh, in_or_app. by right.
      * intros c' Hc'. apply Hnew. by right.
    + rewrite IH; [done| |].
      * intros d Hd. apply Hfresh, in_or_app. by right.
      * intros c' Hc'. apply Hnew. by right.
    + rewrite IH; [done| |].
      * intros d Hd. apply Hfresh, in_or_app. by right.
      * intros c' Hc'. apply Hnew. by right.
Qed.

Lemma process_distinct e : folds_distinct fn kwargs e.
Proof.
  induction e as [| | | |c i v ops _ IH] using obj_ind';
    try (by intros V st _ _).
  intros V st Hnodup Hfresh.
  simpl in Hnodup. apply NoDup_cons in Hnodup as [Hself Hndl].
  pose proof (process_children_distinct V ops IH V st Hndl) as Hch.
  rewrite process_Instance. cbn [postorder].
  unfold tracks_list in Hch.
  destruct (fold_operands (postorder fn kwargs) ops st)
    as [[rs st1]| | |]; cbn [bind].
  - destruct Hch as (V1 & -> & Hlook & Hout).
    { intros d Hd. apply Hfresh. simpl. by right. }
    { intros c' Hc'. unfold contains. rewrite Hfresh; [done|].
      simpl. right. apply (subterms_flat_map ops c'); [done|].
      apply subterms_self. }
    cbn [bind]. unfold visit. rewrite Hlook. cbn [bind].
    unfold tracks.
    destruct (fn (Instance c i v ops) rs kwargs st1) as [[r st2]| | |];
      cbn [bind]; try done.
    eexists. split; [done|]. split.
    + cbn [hashkey]. apply lookup_insert_eq.
    + intros k Hk. simpl in Hk. cbn [hashkey].
      rewrite lookup_insert_ne by (intros <-; apply Hk; by left).
      apply Hout. intros Hin. apply Hk. by right.
  - unfold tracks. rewrite Hch; [done| |].
    + intros d Hd. apply Hfresh. simpl. by right.
    + intros c' Hc'. unfold contains. rewrite Hfresh; [done|].
      simpl. right. apply (subterms_flat_map ops c'); [done|].
      apply subterms_self.
  - unfold tracks. rewrite Hch; [done| |].
    + intros d Hd. apply Hfresh. simpl. by right.
    + intros c' Hc'. unfold contains. rewrite Hfresh; [done|].
      simpl. right. apply (subterms_flat_map ops c'); [done|].
      apply subterms_self.
  - unfold tracks. rewrite Hch; [done| |].
    + intros d Hd. apply Hfresh. simpl. by right.
    + intros c' Hc'. unfold contains. rewrite Hfresh; [done|].
      simpl. right. apply (subterms_flat_map ops c'); [done|].
      apply subterms_self.
Qed.
End distinct_nodes.

(** X2: on an expression without shared nodes the visitor is the recursive
    postorder fold, side effects and exceptions included: the fold function
    is applied to every node exactly once, after its operands, and the
    operands are folded from the last to the first. *)
Theorem postvisitor_distinct_postorder {St R}
    (fn : obj -> list R -> gmap string obj -> M St R)
    (kwargs : gmap string obj) (expr : obj) (st : St) :
  distinct expr ->
  postvisitor expr fn kwargs st = postorder fn kwargs expr st.
Proof.
  intros Hdistinct. rewrite postvisitor_process.
  pose proof (process_distinct fn kwargs expr ∅ st Hdistinct) as H.
  unfold tracks in H.
  destruct (postorder fn kwargs expr st) as [[r st']| | |].
  - destruct H as (V & -> & Hr & _); [by intros|].
    cbn [bind]. by rewrite Hr.
  - rewrite H; [done|by intros].
  - rewrite H; [done|by intros].
  - rewrite H; [done|by intros].
Qed.

Lemma postvisitor_distinct_postorder_witness :
  postvisitor (Instance Sub 2 None [Instance Symbol 0 (Some (PyStr "x")) [];
                                     Instance Number 1 (Some (PyInt 2)) []])
              record_call ∅ [] =
  Return (tt, [KId 1; KId 0; KId 2]).
Proof.
  apply (postvisitor_distinct_postorder record_call ∅
    (Instance Sub 2 None [Instance Symbol 0 (Some (PyStr "x")) [];
                          Instance Number 1 (Some (PyInt 2)) []]) []).
  by apply (bool_decide_unpack _).
Defined.

Section pure_fold.
Context {St R : Type}.
Variable f : obj -> list R -> gmap string obj -> outcome R.
Variable kwargs : gmap string obj.

Lemma pure_fn_eq e args (st : St) :
  pure_fn f e args kwargs st = let? r := f e args kwargs in Return (r, st).
Proof. reflexivity. Qed.

Lemma fold_operands_pure_state l :
  Forall (fun d => forall st st' : St,
            postorder (pure_fn f) kwargs d st' =
            let? (r, _) := postorder (pure_fn f) kwargs d st in
            Return (r, st')) l ->
  forall st st' : St,
    fold_operands (postorder (pure_fn f) kwargs) l st' =
    let? (rs, _) := fold_operands (postorder (pure_fn f) kwargs) l st in
    Return (rs, st').
Proof.
  induction 1 as [|c l Hc _ IH]; intros st st'; [done|].
  cbn [fold_operands]. rewrite (IH st st').
  destruct (fold_operands (postorder (pure_fn f) kwargs) l st)
    as [[rs st1]| | |]; cbn [bind]; try done.
  rewrite (Hc st1 st').
  by destruct (postorder (pure_fn f) kwargs c st1) as [[r st2]| | |].
Qed.

(** A fold without side effects does not depend on the state. *)
Lemma postorder_pure_state d : forall st st' : St,
  postorder (pure_fn f) kwargs d st' =
  let? (r, _) := postorder (pure_fn f) kwargs d st in Return (r, st').
Proof.
  induction d as [| | | |c i v ops _ IH] using obj_ind'; try done.
  intros st st'. cbn [postorder].
  rewrite (fold_operands_pure_state ops IH st st').
  destruct (fold_operands (postorder (pure_fn f) kwargs) ops st)
    as [[rs st1]| | |]; cbn [bind]; try done.
  unfold pure_fn, lift. by destruct (f (Instance c i v ops) rs kwargs).
Qed.

Lemma postorder_pure_return d (st st1 : St) r :
  postorder (pure_fn f) kwargs d st = Return (r, st1) ->
  st1 = st /\
  forall st' : St, postorder (pure_fn f) kwargs d st' = Return (r, st').
Proof.
  intros Hrun. split.
  - pose proof (postorder_pure_state d st st) as H.
    rewrite Hrun in H. cbn [bind] in H. by injection H.
  - intros st'. rewrite (postorder_pure_state d st st'), Hrun. done.
Qed.

Variable root : obj.
Hypothesis Hcons : consistent root.

Lemma lookup_all_sound (V : gmap key R) l :
  memo_sound (St:=St) (pure_fn f) kwargs root V ->
  (forall c, In c l -> In c (subterms root)) ->
  Forall (fun c => contains V c = true) l ->
  forall (st st1 : St) rs,
    fold_operands (postorder (pure_fn f) kwargs) l st = Return (rs, st1) ->
    lookup_all V l = Return rs.
Proof.
  intros HV Hsub Hin. induction Hin as [|c l Hc _ IH]; intros st st1 rs Hrun.
  - by injection Hrun as <- _.
  - cbn [fold_operands] in Hrun.
    destruct (fold_operands (postorder (pure_fn f) kwargs) l st)
      as [[rs' st0]| | |] eqn:Hl; try done.
    cbn [bind] in Hrun.
    destruct (postorder (pure_fn f) kwargs c st0) as [[r st2]| | |] eqn:Hpc;
      try done.
    cbn [bind] in Hrun. injection Hrun as <- <-.
    simpl. unfold contains in Hc.
    destruct (V !! hashkey c) as [r'|] eqn:Hr'; [|done].
    rewrite (HV c r' (Hsub c (or_introl eq_refl)) Hr' st0) in Hpc.
    injection Hpc as -> _.
    rewrite (IH (fun c' Hc' => Hsub c' (or_intror Hc')) st st0 rs' Hl).
    done.
Qed.

Lemma process_children_sound (V0 : gmap key R) l :
  Forall (folds_sound (St:=St) (pure_fn f) kwargs root) l ->
  (forall c, In c l -> In c (subterms root)) ->
  forall (V : gmap key R) (st : St),
    memo_sound (St:=St) (pure_fn f) kwargs root V -> grows V0 V ->
    tracks_list (fold_operands (postorder (pure_fn f) kwargs) l st)
      (process_children (process (pure_fn f) kwargs) V0 l (V, st))
      (fun _ V' => memo_sound (St:=St) (pure_fn f) kwargs root V' /\ grows V V').
Proof.
  induction 1 as [|c l Hc _ IH]; intros Hsub V st HV H0.
  - simpl. exists V. split; [done|]. split; [done|by intros o].
  - specialize (IH (fun c' Hc' => Hsub c' (or_intror Hc')) V st HV H0).
    cbn [fold_operands process_children].
    destruct (fold_operands (postorder (pure_fn f) kwargs) l st)
      as [[rs st1]| | |]; cbn [tracks_list bind] in *;
      try (by rewrite IH).
    destruct IH as (V1 & -> & HV1 & Hg1). cbn [bind fst snd].
    destruct (contains V0 c) eqn:Hin.
    + assert (Hc1 : contains V1 c = true) by (by apply Hg1, H0).
      unfold contains in Hc1.
      destruct (V1 !! hashkey c) as [r|] eqn:Hr; [|done].
      rewrite (HV1 c r (Hsub c (or_introl eq_refl)) Hr st1). cbn [bind].
      by exists V1.
    + specialize (Hc (Hsub c (or_introl eq_refl)) V1 st1 HV1).
      unfold tracks in Hc.
      destruct (postorder (pure_fn f) kwargs c st1) as [[r st2]| | |] eqn:Hpc;
        cbn [bind]; try done.
      destruct Hc as (V2 & Hp & HV2). exists V2. split; [done|].
      split; [done|].
      destruct (process_grows _ _ _ _ _ _ _ Hp) as [Hg2 _].
      intros o Ho. by apply Hg2, Hg1.
Qed.

Lemma process_sound e : folds_sound (St:=St) (pure_fn f) kwargs root e.
Proof.
  induction e as [| | | |c i v ops _ IH] using obj_ind';
    try (by intros _ V st _).
  intros Hin V st HV.
  assert (Hsub : forall o, In o ops -> In o (subterms root)).
  { intros o Ho. by apply (subterms_operand root c i v ops). }
  pose proof (process_children_sound V ops IH Hsub V st HV
                (fun o Ho => Ho)) as Hch.
  rewrite process_Instance. cbn [postorder]. unfold tracks_list in Hch.
  destruct (fold_operands (postorder (pure_fn f) kwargs) ops st)
    as [[rs st1]| | |] eqn:Hfold; cbn [bind];
    try (unfold tracks; by rewrite Hch).
  destruct Hch as (V1 & Hpc & HV1 & Hg1). rewrite Hpc. cbn [bind].
  assert (Hall : Forall (fun o => contains V1 o = true) ops).
  { eapply (process_children_grows (pure_fn f) kwargs V ops);
      [|by intros o|exact Hpc].
    eapply Forall_impl; [exact IH|]. intros o _. apply process_grows. }
  unfold visit.
  rewrite (lookup_all_sound V1 ops HV1 Hsub Hall st st1 rs Hfold).
  cbn [bind]. rewrite !pure_fn_eq.
  destruct (f (Instance c i v ops) rs kwargs) as [r| | |] eqn:Hf;
    cbn [bind tracks]; try done.
  eexists. split; [done|].
  intros d r0 Hd Hr0 st'.
  destruct (decide (hashkey (Instance c i v ops) = hashkey d)) as [Hk|Hk].
  - rewrite Hk, lookup_insert_eq in Hr0. injection Hr0 as <-.
    rewrite <- (consistent_eq root _ _ Hcons Hin Hd Hk).
    apply (postorder_pure_return _ st st1). cbn [postorder].
    rewrite Hfold. cbn [bind]. by rewrite pure_fn_eq, Hf.
  - rewrite lookup_insert_ne in Hr0 by done. by apply HV1.
Qed.
End pure_fold.

(** X3: for a fold function without side effects, sharing is not
    observable: on every expression graph the visitor returns, or raises,
    what the recursive postorder fold of the tree does, although shared
    nodes may be folded several times or only once. *)
Theorem postvisitor_pure_postorder {St R}
    (f : obj -> list R -> gmap string obj -> outcome R)
    (kwargs : gmap string obj) (root : obj) (st : St) :
  consistent root ->
  postvisitor root (pure_fn f) kwargs st =
  postorder (pure_fn f) kwargs root st.
Proof.
  intros Hcons. rewrite postvisitor_process.
  pose proof (process_sound f kwargs root Hcons root (subterms_self root)
                ∅ st) as H.
  unfold tracks in H.
  destruct (postorder (pure_fn f) kwargs root st) as [[r st1]| | |] eqn:Hpo;
    try (rewrite H; [done|by intros d r0 _ Hr0]).
  destruct H as (V & Hp & HV); [by intros d r0 _ Hr0|].
  rewrite Hp. cbn [bind].
  destruct (process_grows _ _ _ _ _ _ _ Hp) as [_ Hin].
  unfold contains in Hin.
  destruct (V !! hashkey root) as [r'|] eqn:Hr'; [|done].
  rewrite (HV root r' (subterms_self root) Hr' st) in Hpo.
  by injection Hpo as -> ->.
Qed.

Lemma postvisitor_pure_postorder_witness :
  postvisitor shared_symbol_graph
    (pure_fn (fun e args _ => Return (S (list_sum args)))) ∅ tt =
  Return (5%nat, tt).
Proof.
  apply (postvisitor_pure_postorder
           (fun e args _ => Return (S (list_sum args))) ∅
           shared_symbol_graph tt).
  by apply (bool_decide_unpack _).
Defined.

(** ** Further properties of the node model *)

Lemma string_app_assoc (s1 s2 s3 : string) :
  (s1 +:+ s2) +:+ s3 = s1 +:+ (s2 +:+ s3).
Proof.
  induction s1 as [|a s1 IH]; [done|].
  change (String a ((s1 +:+ s2) +:+ s3) = String a (s1 +:+ (s2 +:+ s3))).
  by rewrite IH.
Qed.

Lemma well_formed_node op i a b :
  well_formed (Instance (class_of_binop op) i None [a; b]) =
  well_formed a && well_formed b.
Proof. by destruct op. Qed.

Lemma py_str_well_formed (o : obj) :
  well_formed o = true -> py_str o = Return (render o).
Proof.
  revert o. apply (well_formed_ind (fun o => py_str o = Return (render o)));
    [done|done|].
  intros op i a b Ha Hb IHa IHb.
  assert (Hself : well_formed (Instance (class_of_binop op) i None [a; b]) = true)
    by (by rewrite well_formed_node, Ha, Hb).
  transitivity
    (let? sa := paren (Instance (class_of_binop op) i None [a; b]) a (py_str a) in
     let? g := get_symbol (Instance (class_of_binop op) i None [a; b]) in
     let? sb := paren (Instance (class_of_binop op) i None [a; b]) b (py_str b) in
     Return (sa +:+ " " +:+ g +:+ " " +:+ sb)); [by destruct op|].
  rewrite IHa, IHb, !paren_render by done. by destruct op.
Qed.

Lemma py_binop_nodes op x y st :
  is_expression x = true -> is_expression y = true ->
  py_binop op x y st =
  Return (Instance (class_of_binop op) st None [x; y], S st).
Proof. destruct x; try done. destruct y; try done. by destruct op. Qed.

Lemma py_binop_node_int op x z st :
  is_expression x = true ->
  py_binop op x (PyInt z) st =
  Return (Instance (class_of_binop op) (S st) None
            [x; Instance Number st (Some (PyInt z)) []], S (S st)).
Proof. destruct x; try done. by destruct op. Qed.

Lemma py_binop_int_node op z x st :
  is_expression x = true ->
  py_binop op (PyInt z) x st =
  Return (Instance (class_of_binop op) (S st) None
            [Instance Number st (Some (PyInt z)) []; x], S (S st)).
Proof. destruct x; try done. by destruct op. Qed.

(** X5: [str] does not show the grouping of operators of equal precedence:
    [a op1 (b op2 c)] and [(a op1 b) op2 c] print the same text, for
    instance [a - (b - c)] and [(a - b) - c], or [a / (b * c)] and
    [(a / b) * c]. *)
Theorem str_hides_grouping (op1 op2 : binop) (i j i' j' : nat) (a b c : obj) :
  well_formed a = true -> well_formed b = true -> well_formed c = true ->
  precedence_of (class_of_binop op1) = precedence_of (class_of_binop op2) ->
  py_str (Instance (class_of_binop op1) i None
            [a; Instance (class_of_binop op2) j None [b; c]]) =
  py_str (Instance (class_of_binop op2) i' None
            [Instance (class_of_binop op1) j' None [a; b]; c]).
Proof.
  intros Ha Hb Hc Hprec.
  rewrite !py_str_well_formed
    by (by rewrite !well_formed_node, ?Ha, ?Hb, ?Hc).
  f_equal. cbn [render]. unfold render_side.
  destruct op1, op2; try done; cbn [tier class_of_binop glyph];
    repeat case_decide; try lia;
    by rewrite ?string_app_assoc.
Qed.

Lemma str_hides_grouping_witness :
  py_str (Instance Sub 4 None
            [Instance Symbol 0 (Some (PyStr "a")) [];
             Instance Sub 3 None [Instance Symbol 1 (Some (PyStr "b")) [];
                                  Instance Symbol 2 (Some (PyStr "c")) []]]) =
  py_str (Instance Sub 4 None
            [Instance Sub 3 None [Instance Symbol 0 (Some (PyStr "a")) [];
                                  Instance Symbol 1 (Some (PyStr "b")) []];
             Instance Symbol 2 (Some (PyStr "c")) []]).
Proof.
  apply (str_hides_grouping OpSub OpSub 4 3 4 3
           (Instance Symbol 0 (Some (PyStr "a")) [])
           (Instance Symbol 1 (Some (PyStr "b")) [])
           (Instance Symbol 2 (Some (PyStr "c")) [])); reflexivity.
Defined.

Lemma paren_returns op i v ops x :
  well_formed x = true ->
  exists s, paren (Instance (class_of_binop op) i v ops) x (py_str x) = Return s.
Proof.
  intros Hx. rewrite (py_str_well_formed x Hx). unfold paren.
  assert (Hp : exists p, get_precedence x = Return p).
  { destruct x as [| | | |c' i' v' ops']; try done.
    destruct c', v' as [[]|], ops' as [|? [|? [|]]]; try done; by eexists. }
  destruct Hp as [p ->]. cbn [bind].
  assert (Hq : exists q, get_precedence (Instance (class_of_binop op) i v ops)
                         = Return q) by (destruct op; by eexists).
  destruct Hq as [q ->]. cbn [bind].
  destruct (decide (p < q)); by eexists.
Qed.

(** X6: [str] raises on the operator nodes the data model excludes but the
    constructors build: [AttributeError] on [precedence] when an operand is
    not an expression, on either side, and [IndexError] when there are
    fewer than two operands. *)
Theorem str_raises_on_malformed_node
    (op : binop) (i : nat) (v : option obj) (x bad : obj) :
  well_formed x = true -> is_expression bad = false ->
  py_str (Instance (class_of_binop op) i v [x; bad]) =
    Raise (AttributeError "precedence") /\
  py_str (Instance (class_of_binop op) i v [bad; x]) =
    Raise (AttributeError "precedence") /\
  py_str (Instance (class_of_binop op) i v [x]) = Raise IndexError /\
  py_str (Instance (class_of_binop op) i v []) = Raise IndexError.
Proof.
  intros Hx Hbad.
  destruct (paren_returns op i v [x; bad] x Hx) as [s2 Hs2].
  destruct (paren_returns op i v [x] x Hx) as [s1 Hs1].
  assert (Hpb : get_precedence bad = Raise (AttributeError "precedence"))
    by (by destruct bad).
  repeat split.
  - transitivity
      (let? sa := paren (Instance (class_of_binop op) i v [x; bad]) x (py_str x) in
       let? g := get_symbol (Instance (class_of_binop op) i v [x; bad]) in
       let? sb := paren (Instance (class_of_binop op) i v [x; bad]) bad
                        (py_str bad) in
       Return (sa +:+ " " +:+ g +:+ " " +:+ sb)); [by destruct op|].
    rewrite Hs2. cbn [bind]. unfold paren at 1. rewrite Hpb.
    by destruct op.
  - transitivity
      (let? sa := paren (Instance (class_of_binop op) i v [bad; x]) bad
                        (py_str bad) in
       let? g := get_symbol (Instance (class_of_binop op) i v [bad; x]) in
       let? sb := paren (Instance (class_of_binop op) i v [bad; x]) x (py_str x) in
       Return (sa +:+ " " +:+ g +:+ " " +:+ sb)); [by destruct op|].
    unfold paren at 1. by rewrite Hpb.
  - transitivity
      (let? sa := paren (Instance (class_of_binop op) i v [x]) x (py_str x) in
       let? g := get_symbol (Instance (class_of_binop op) i v [x]) in
       Raise IndexError : outcome string); [by destruct op|].
    rewrite Hs1. by destruct op.
  - by destruct op.
Qed.

Lemma str_raises_on_malformed_node_witness :
  py_str (Instance Add 1 None
            [Instance Symbol 0 (Some (PyStr "x")) []; PyStr "foo"]) =
    Raise (AttributeError "precedence") /\
  py_str (Instance Add 1 None
            [PyStr "foo"; Instance Symbol 0 (Some (PyStr "x")) []]) =
    Raise (AttributeError "precedence") /\
  py_str (Instance Add 1 None [Instance Symbol 0 (Some (PyStr "x")) []]) =
    Raise IndexError /\
  py_str (Instance Add 1 None []) = Raise IndexError.
Proof.
  apply (str_raises_on_malformed_node OpAdd 1 None
           (Instance Symbol 0 (Some (PyStr "x")) []) (PyStr "foo"));
    reflexivity.
Defined.

(** X7: the operators build the data model.  On well-formed operands they
    return a well-formed binary node with a new identity over the very
    operands; a number on either side is first wrapped into a new [Number]
    node, through the reflected method when it is on the left. *)
Theorem operators_build_well_formed_nodes
    (op : binop) (x y : obj) (z : Z) (st : nat) :
  well_formed x = true -> well_formed y = true ->
  exists v vr vl,
    py_binop op x y st = Return (v, S st) /\
    v = Instance (class_of_binop op) st None [x; y] /\
    py_binop op x (PyInt z) st = Return (vr, S (S st)) /\
    vr = Instance (class_of_binop op) (S st) None
           [x; Instance Number st (Some (PyInt z)) []] /\
    py_binop op (PyInt z) x st = Return (vl, S (S st)) /\
    vl = Instance (class_of_binop op) (S st) None
           [Instance Number st (Some (PyInt z)) []; x] /\
    well_formed v = true /\ well_formed vr = true /\ well_formed vl = true.
Proof.
  intros Hx Hy. eexists _, _, _.
  pose proof (well_formed_expression x Hx) as Hex.
  pose proof (well_formed_expression y Hy) as Hey.
  split; [by apply py_binop_nodes|]. split; [done|].
  split; [by apply py_binop_node_int|]. split; [done|].
  split; [by apply py_binop_int_node|]. split; [done|].
  by rewrite !well_formed_node, Hx, Hy.
Qed.

Lemma operators_build_well_formed_nodes_witness :
  exists v vr vl,
    py_binop OpPow node_s node_two 4%nat = Return (v, 5%nat) /\
    v = Instance Pow 4 None [node_s; node_two] /\
    py_binop OpPow node_s (PyInt 3) 4%nat = Return (vr, 6%nat) /\
    vr = Instance Pow 5 None [node_s; Instance Number 4 (Some (PyInt 3)) []] /\
    py_binop OpPow (PyInt 3) node_s 4%nat = Return (vl, 6%nat) /\
    vl = Instance Pow 5 None [Instance Number 4 (Some (PyInt 3)) []; node_s] /\
    well_formed v = true /\ well_formed vr = true /\ well_formed vl = true.
Proof.
  apply (operators_build_well_formed_nodes OpPow node_s node_two 3 4%nat);
    reflexivity.
Defined.

(** ** Further properties of differentiation *)

Lemma derived_cases v :
  derived v = true ->
  (exists z, v = PyInt z) \/ (well_formed v = true /\ is_number v = false).
Proof.
  unfold derived. destruct v; try done; [left; by eexists|].
  intros Hv. right. by split.
Qed.

Lemma derived_of_well_formed v : well_formed v = true -> derived v = true.
Proof. unfold derived. intros ->. apply orb_true_r. Qed.

Lemma py_binop_wf_l op x y st :
  well_formed x = true -> derived y = true ->
  exists v st', py_binop op x y st = Return (v, st') /\ well_formed v = true.
Proof.
  intros Hx Hy. pose proof (well_formed_expression x Hx) as Hex.
  destruct (derived_cases y Hy) as [[z ->]|[Hwy _]].
  - rewrite py_binop_node_int by done. eexists _, _. split; [done|].
    by rewrite well_formed_node, Hx.
  - rewrite py_binop_nodes by auto using well_formed_expression.
    eexists _, _. split; [done|]. by rewrite well_formed_node, Hx, Hwy.
Qed.

Lemma py_binop_wf_r op x y st :
  derived x = true -> well_formed y = true ->
  exists v st', py_binop op x y st = Return (v, st') /\ well_formed v = true.
Proof.
  intros Hx Hy. pose proof (well_formed_expression y Hy) as Hey.
  destruct (derived_cases x Hx) as [[z ->]|[Hwx _]].
  - rewrite py_binop_int_node by done. eexists _, _. split; [done|].
    by rewrite well_formed_node, Hy.
  - rewrite py_binop_nodes by auto using well_formed_expression.
    eexists _, _. split; [done|]. by rewrite well_formed_node, Hwx, Hy.
Qed.

Ltac solve_derived :=
  first [ assumption | reflexivity | by apply derived_of_well_formed ].

Ltac binop_step :=
  match goal with
  | |- context [py_binop ?op ?x ?y ?s] =>
      first
        [ destruct (py_binop_wf_l op x y s) as (? & ? & -> & ?);
          [solve_derived|solve_derived|]
        | destruct (py_binop_wf_r op x y s) as (? & ? & -> & ?);
          [solve_derived|solve_derived|] ];
      cbn [bind]
  end.

(** The rules on bare numbers: sums and differences stay numbers. *)
Lemma differentiate_numbers op i v ops x y kwargs st :
  op = OpAdd \/ op = OpSub ->
  differentiate (Instance (class_of_binop op) i v ops) [PyInt x; PyInt y]
                kwargs st =
  Return (PyInt (match op with OpAdd => x + y | _ => x - y end), st).
Proof. by intros [-> | ->]. Qed.

(** The rules otherwise: a well-formed node. *)
Lemma differentiate_node op i a b da db kwargs st :
  well_formed a = true -> well_formed b = true ->
  derived da = true -> derived db = true ->
  (op = OpAdd \/ op = OpSub ->
   well_formed da = true \/ well_formed db = true) ->
  exists v st',
    differentiate (Instance (class_of_binop op) i None [a; b]) [da; db]
                  kwargs st = Return (v, st') /\ well_formed v = true.
Proof.
  intros Ha Hb Hda Hdb Hsum.
  destruct op; cbn [class_of_binop differentiate];
    unfold operand; unfold mbind', lift;
    cbn [bind index lookup list_lookup get_operands].
  - assert (H : well_formed da = true \/ well_formed db = true)
      by (apply Hsum; by left).
    destruct H; binop_step; by eexists _, _.
  - assert (H : well_formed da = true \/ well_formed db = true)
      by (apply Hsum; by right).
    destruct H; binop_step; by eexists _, _.
  - repeat binop_step. by eexists _, _.
  - repeat binop_step. by eexists _, _.
  - repeat binop_step. by eexists _, _.
Qed.

Lemma differentiate_derived op i a b da db kwargs st :
  well_formed a = true -> well_formed b = true ->
  derived da = true -> derived db = true ->
  exists v st',
    differentiate (Instance (class_of_binop op) i None [a; b]) [da; db]
                  kwargs st = Return (v, st') /\ derived v = true.
Proof.
  intros Ha Hb Hda Hdb.
  destruct (derived_cases da Hda) as [[x ->]|[Hwa _]];
    [destruct (derived_cases db Hdb) as [[y ->]|[Hwb _]]|].
  - assert (Hop : (op = OpAdd \/ op = OpSub) \/ ~ (op = OpAdd \/ op = OpSub)).
    { destruct op; [left; by left|left; by right| | |];
        right; by intros [|]. }
    destruct Hop as [Hop|Hop].
    + rewrite differentiate_numbers by done. by eexists _, _.
    + destruct (differentiate_node op i a b (PyInt x) (PyInt y) kwargs st)
        as (v & st' & -> & Hv); try done.
      eexists _, _. split; [done|]. by apply derived_of_well_formed.
  - destruct (differentiate_node op i a b (PyInt x) db kwargs st)
      as (v & st' & -> & Hv); auto.
    eexists _, _. split; [done|]. by apply derived_of_well_formed.
  - destruct (differentiate_node op i a b da db kwargs st)
      as (v & st' & -> & Hv); auto.
    eexists _, _. split; [done|]. by apply derived_of_well_formed.
Qed.

Lemma lookup_all_Forall {R} (P : R -> Prop) (V : gmap key R) l args :
  map_Forall (fun _ v => P v) V -> lookup_all V l = Return args ->
  Forall P args.
Proof.
  intros HV. revert args. induction l as [|o l IH]; intros args; simpl.
  - intros [= <-]. constructor.
  - destruct (V !! hashkey o) as [r|] eqn:Hr; [|done].
    destruct (lookup_all V l) as [rs| | |]; try done.
    simpl. intros [= <-]. constructor; [|by apply IH].
    by apply (HV _ _ Hr).
Qed.

Lemma lookup_all_pair {R} (V : gmap key R) a b args :
  lookup_all V [a; b] = Return args ->
  exists da db, args = [da; db] /\
                V !! hashkey a = Some da /\ V !! hashkey b = Some db.
Proof.
  simpl. destruct (V !! hashkey a) as [da|]; [|done].
  destruct (V !! hashkey b) as [db|]; [|done].
  simpl. intros [= <-]. by exists da, db.
Qed.

Lemma visit_inv_call {St R} (fn : obj -> list R -> gmap string obj -> M St R)
    kwargs e ops (V : gmap key R) st V' st' :
  visit fn kwargs e ops V st = Return (V', st') ->
  exists args r, lookup_all V ops = Return args /\
                 fn e args kwargs st = Return (r, st') /\
                 V' = <[hashkey e := r]> V.
Proof.
  unfold visit. destruct (lookup_all V ops) as [args| | |]; try done.
  cbn [bind]. destruct (fn e args kwargs st) as [[r st1]| | |] eqn:Hfn;
    try done.
  cbn [bind]. intros [= <- <-]. by exists args, r.
Qed.

(** One operand of a popped node: skipped when it had a result, processed
    otherwise. *)
Lemma operand_step (P : gmap key obj -> Prop) kwargs c
    (V0 V : gmap key obj) (st : nat) :
  (forall V st, P V ->
     exists V' st', process differentiate kwargs c V st = Return (V', st') /\
                    P V') ->
  P V -> grows V0 V ->
  exists V' st',
    (if contains V0 c then Return (V, st)
     else process differentiate kwargs c V st) = Return (V', st') /\
    P V' /\ grows V V' /\ contains V' c = true.
Proof.
  intros Hc HV H0. destruct (contains V0 c) eqn:Hin.
  - exists V, st. repeat split; try done; [by intros o|by apply H0].
  - destruct (Hc V st HV) as (V' & st' & Hrun & HV').
    destruct (process_grows _ _ _ _ _ _ _ Hrun) as [Hg Hin'].
    by exists V', st'.
Qed.

Lemma process_differentiate_derived kwargs var c :
  kwargs !! "var" = Some var -> well_formed c = true ->
  forall (V : gmap key obj) st, memo_derived V ->
    exists V' st',
      process differentiate kwargs c V st = Return (V', st') /\
      memo_derived V'.
Proof.
  intros Hvar. revert c.
  apply (well_formed_ind (fun c =>
    forall (V : gmap key obj) (st : nat), memo_derived V ->
      exists V' st',
        process differentiate kwargs c V st = Return (V', st') /\
        memo_derived V')).
  - intros i z V st HV. eexists _, _. split; [reflexivity|].
    by apply map_Forall_insert_2.
  - intros i s V st HV. rewrite process_Instance.
    cbn [process_children bind visit lookup_all differentiate mbind' lift
         get_value].
    unfold getitem. rewrite Hvar. unfold mbind', lift. cbn [bind].
    destruct (py_eq (PyStr s) var);
      (eexists _, _; split; [reflexivity|by apply map_Forall_insert_2]).
  - intros op i a b Ha Hb IHa IHb V st HV. rewrite process_binary.
    destruct (operand_step memo_derived kwargs b V V st IHb HV)
      as (V1 & st1 & -> & HV1 & Hg1 & Hinb); [by intros o|].
    cbn [bind].
    destruct (operand_step memo_derived kwargs a V V1 st1 IHa HV1 Hg1)
      as (V2 & st2 & -> & HV2 & Hg2 & Hina).
    cbn [bind]. unfold visit.
    destruct (lookup_all_contains V2 [a; b]) as (args & Hargs & Hlen).
    { repeat constructor; [done|by apply Hg2]. }
    pose proof (lookup_all_Forall _ V2 _ _ HV2 Hargs) as Hder.
    rewrite Hargs. destruct args as [|da [|db [|]]]; try done.
    apply Forall_cons in Hder as [Hda Hder].
    apply Forall_cons in Hder as [Hdb _].
    destruct (differentiate_derived op i a b da db kwargs st2 Ha Hb Hda Hdb)
      as (v & st' & Hv & Hdv).
    cbn [bind]. rewrite Hv. cbn [bind]. eexists _, _. split; [done|].
    by apply map_Forall_insert_2.
Qed.

Lemma postvisitor_differentiate_derived root kwargs var st :
  well_formed root = true -> kwargs !! "var" = Some var ->
  exists v st',
    postvisitor root differentiate kwargs st = Return (v, st') /\
    derived v = true.
Proof.
  intros Hwf Hvar.
  destruct (process_differentiate_derived kwargs var root Hvar Hwf ∅ st)
    as (V' & st' & Hrun & HV'); [apply map_Forall_empty|].
  rewrite postvisitor_process, Hrun. cbn [bind].
  destruct (process_grows _ _ _ _ _ _ _ Hrun) as [_ Hin].
  unfold contains in Hin.
  destruct (V' !! hashkey root) as [r|] eqn:Hr; [|done].
  exists r, st'. split; [done|]. by apply (HV' _ _ Hr).
Qed.

(** X8: with [var] given, the derivative of a well-formed expression is a
    bare number or again a well-formed expression.  A derivative that is a
    node can be differentiated again; on one that is a bare number
    differentiating again raises [AttributeError] on [operands]. *)
Theorem derivative_again
    (root : obj) (kwargs : gmap string obj) (var : obj) (st : nat) :
  well_formed root = true -> kwargs !! "var" = Some var ->
  exists v st',
    postvisitor root differentiate kwargs st = Return (v, st') /\
    derived v = true /\
    if is_number v then
      postvisitor v differentiate kwargs st' =
      Raise (AttributeError "operands")
    else
      exists v2 st2,
        postvisitor v differentiate kwargs st' = Return (v2, st2) /\
        derived v2 = true.
Proof.
  intros Hwf Hvar.
  destruct (postvisitor_differentiate_derived root kwargs var st Hwf Hvar)
    as (v & st' & Hv & Hdv).
  exists v, st'. split; [done|]. split; [done|].
  destruct (derived_cases v Hdv) as [[z ->]|[Hwv ->]]; [done|].
  by apply (postvisitor_differentiate_derived v kwargs var).
Qed.

Lemma derivative_again_witness :
  exists v st',
    postvisitor shared_symbol_graph differentiate (var_kwargs "x") 4%nat
      = Return (v, st') /\
    derived v = true /\
    if is_number v then
      postvisitor v differentiate (var_kwargs "x") st' =
      Raise (AttributeError "operands")
    else
      exists v2 st2,
        postvisitor v differentiate (var_kwargs "x") st' = Return (v2, st2) /\
        derived v2 = true.
Proof.
  apply (derivative_again shared_symbol_graph (var_kwargs "x") (PyStr "x")
           4%nat); reflexivity.
Defined.

Lemma linear_node op i a b :
  linear (Instance (class_of_binop op) i None [a; b]) =
  match op with
  | OpAdd | OpSub => linear a && linear b
  | _ => false
  end.
Proof. destruct op; simpl; by rewrite ?andb_true_r. Qed.

Section linear_expressions.
Variable root : obj.
Variable var : obj.
Variable kwargs : gmap string obj.
Hypothesis Hcons : consistent root.
Hypothesis Hvar : kwargs !! "var" = Some var.

Lemma memo_linear_insert c r (V : gmap key obj) :
  In c (subterms root) ->
  (if linear c then r = PyInt (slope var c) else is_expression r = true) ->
  memo_linear root var V -> memo_linear root var (<[hashkey c := r]> V).
Proof.
  intros Hc Hr HV d r' Hd Hlook.
  destruct (decide (hashkey c = hashkey d)) as [Hk|Hk].
  - rewrite Hk, lookup_insert_eq in Hlook. injection Hlook as <-.
    by rewrite <- (consistent_eq root c d Hcons Hc Hd Hk).
  - rewrite lookup_insert_ne in Hlook by done. by apply HV.
Qed.

(** One operand, given that the node returns. *)
Lemma operand_step_linear c (V0 V V' : gmap key obj) (st st' : nat) :
  In c (subterms root) ->
  (forall (V : gmap key obj) st V' st',
     memo_linear root var V -> memo_derived V ->
     process differentiate kwargs c V st = Return (V', st') ->
     memo_linear root var V' /\ (linear c = true -> st' = st)) ->
  memo_linear root var V ->memo_derived V ->
  (if contains V0 c then Return (V, st)
   else process differentiate kwargs c V st) = Return (V', st') ->
  memo_linear root var V' /\ (linear c = true -> st' = st).
Proof.
  intros Hc IH HV HdV. destruct (contains V0 c).
  - by intros [= <- <-].
  - by apply IH.
Qed.

Lemma process_linear c :
  well_formed c = true -> In c (subterms root) ->
  forall (V : gmap key obj) st V' st',
    memo_linear root var V -> memo_derived V ->
    process differentiate kwargs c V st = Return (V', st') ->
    memo_linear root var V' /\ (linear c = true -> st' = st).
Proof.
  revert c.
  apply (well_formed_ind (fun c =>
    In c (subterms root) ->
    forall (V : gmap key obj) (st : nat) (V' : gmap key obj) (st' : nat),
      memo_linear root var V -> memo_derived V ->
      process differentiate kwargs c V st = Return (V', st') ->
      memo_linear root var V' /\ (linear c = true -> st' = st))).
  - intros i z Hin V st V' st' HV HdV [= <- <-].
    split; [|done].
    by apply (memo_linear_insert (Instance Number i (Some (PyInt z)) [])).
  - intros i s Hin V st V' st' HV HdV Hrun.
    rewrite process_Instance in Hrun.
    cbn [process_children bind visit lookup_all differentiate mbind' lift
         get_value] in Hrun.
    unfold getitem in Hrun. rewrite Hvar in Hrun.
    unfold mbind', lift in Hrun. cbn [bind] in Hrun.
    assert (Hr : V' = <[hashkey (Instance Symbol i (Some (PyStr s)) []) :=
                        PyInt (if py_eq (PyStr s) var then 1 else 0)]> V
                 /\ st' = st).
    { destruct (py_eq (PyStr s) var); by injection Hrun as <- <-. }
    destruct Hr as [-> ->]. split; [|done].
    by apply memo_linear_insert.
  - intros op i a b Ha Hb IHa IHb Hin V st V' st' HV HdV Hrun.
    assert (Hina : In a (subterms root)).
    { eapply subterms_operand; [exact Hin|]. simpl. auto. }
    assert (Hinb : In b (subterms root)).
    { eapply subterms_operand; [exact Hin|]. simpl. auto. }
    rewrite process_binary in Hrun.
    destruct (operand_step memo_derived kwargs b V V st
                (process_differentiate_derived kwargs var b Hvar Hb) HdV)
      as (V1 & st1 & Hb1 & HdV1 & Hg1 & Hcb); [by intros o|].
    rewrite Hb1 in Hrun. cbn [bind] in Hrun.
    destruct (operand_step_linear b V V V1 st st1 Hinb (IHb Hinb) HV HdV Hb1)
      as [HV1 Hst1].
    destruct (operand_step memo_derived kwargs a V V1 st1
                (process_differentiate_derived kwargs var a Hvar Ha) HdV1 Hg1)
      as (V2 & st2 & Ha2 & HdV2 & Hg2 & Hca).
    rewrite Ha2 in Hrun. cbn [bind] in Hrun.
    destruct (operand_step_linear a V V1 V2 st1 st2 Hina (IHa Hina) HV1 HdV1
                Ha2) as [HV2 Hst2].
    apply visit_inv_call in Hrun as (args & r & Hargs & Hcall & ->).
    pose proof (lookup_all_Forall _ V2 _ _ HdV2 Hargs) as Hder.
    apply lookup_all_pair in Hargs as (da & db & -> & Hda & Hdb).
    apply Forall_cons in Hder as [Hdda Hder].
    apply Forall_cons in Hder as [Hddb _].
    pose proof (HV2 a da Hina Hda) as Hla.
    pose proof (HV2 b db Hinb Hdb) as Hlb.
    assert (Hcase :
      (if linear (Instance (class_of_binop op) i None [a; b])
       then r = PyInt (slope var (Instance (class_of_binop op) i None [a; b]))
       else is_expression r = true) /\
      (linear (Instance (class_of_binop op) i None [a; b]) = true ->
       st' = st2)).
    { rewrite linear_node.
      destruct (linear a) eqn:Hlina, (linear b) eqn:Hlinb.
      - subst da db.
        assert (Hop : (op = OpAdd \/ op = OpSub) \/
                      ~ (op = OpAdd \/ op = OpSub)).
        { destruct op; [left; by left|left; by right| | |];
            right; by intros [|]. }
        destruct Hop as [Hop|Hop].
        + rewrite differentiate_numbers in Hcall by done.
          injection Hcall as <- <-. by destruct Hop as [-> | ->].
        + destruct (differentiate_node op i a b _ _ kwargs st2 Ha Hb Hdda Hddb)
            as (v & st'' & Hv & Hwv); [done|].
          rewrite Hv in Hcall. injection Hcall as <- <-.
          destruct op; try (exfalso; apply Hop; auto; fail);
            split; auto using well_formed_expression; done.
      - destruct (differentiate_node op i a b da db kwargs st2 Ha Hb Hdda Hddb)
          as (v & st'' & Hv & Hwv).
        { intros _. right. destruct (derived_cases db Hddb) as [[z ->]|[? _]];
            done. }
        rewrite Hv in Hcall. injection Hcall as <- <-.
        destruct op; simpl; split; auto using well_formed_expression; done.
      - destruct (differentiate_node op i a b da db kwargs st2 Ha Hb Hdda Hddb)
          as (v & st'' & Hv & Hwv).
        { intros _. left. destruct (derived_cases da Hdda) as [[z ->]|[? _]];
            done. }
        rewrite Hv in Hcall. injection Hcall as <- <-.
        destruct op; simpl; split; auto using well_formed_expression; done.
      - destruct (differentiate_node op i a b da db kwargs st2 Ha Hb Hdda Hddb)
          as (v & st'' & Hv & Hwv).
        { intros _. left. destruct (derived_cases da Hdda) as [[z ->]|[? _]];
            done. }
        rewrite Hv in Hcall. injection Hcall as <- <-.
        destruct op; simpl; split; auto using well_formed_expression; done. }
    destruct Hcase as [Hr Hst]. split.
    + exact (memo_linear_insert (Instance (class_of_binop op) i None [a; b])
               r V2 Hin Hr HV2).
    + intros Hlin. rewrite (Hst Hlin). rewrite linear_node in Hlin.
      assert (Hab : linear a = true /\ linear b = true).
      { destruct op; try done; by apply andb_prop in Hlin. }
      destruct Hab as [Hla' Hlb'].
      by rewrite (Hst2 Hla'), (Hst1 Hlb').
Qed.
End linear_expressions.

(** X9: sums and differences of terminals are differentiated to a bare
    number, the signed count of the occurrences of the variable, and no node
    is built; every other well-formed expression is differentiated to an
    expression node. *)
Theorem linear_derivative_is_a_number
    (root : obj) (kwargs : gmap string obj) (var : obj) (st : nat) :
  well_formed root = true -> consistent root -> kwargs !! "var" = Some var ->
  exists v st',
    postvisitor root differentiate kwargs st = Return (v, st') /\
    if linear root then v = PyInt (slope var root) /\ st' = st
    else is_expression v = true.
Proof.
  intros Hwf Hcons Hvar.
  destruct (process_differentiate_derived kwargs var root Hvar Hwf ∅ st)
    as (V' & st' & Hrun & HV'); [apply map_Forall_empty|].
  destruct (process_linear root var kwargs Hcons Hvar root Hwf
              (subterms_self root) ∅ st V' st') as [Hlin Hst];
    [by intros d r _ Hr|apply map_Forall_empty|done|].
  rewrite postvisitor_process, Hrun. cbn [bind].
  destruct (process_grows _ _ _ _ _ _ _ Hrun) as [_ Hin].
  unfold contains in Hin.
  destruct (V' !! hashkey root) as [r|] eqn:Hr; [|done].
  exists r, st'. split; [done|].
  pose proof (Hlin root r (subterms_self root) Hr) as Hroot.
  destruct (linear root); [|done]. split; [done|by apply Hst].
Qed.

Lemma linear_derivative_is_a_number_witness :
  exists v st',
    postvisitor
      (Instance Sub 4 None
         [Instance Add 2 None [node_s; Instance Number 1 (Some (PyInt 7)) []];
          Instance Sub 3 None [Instance Number 1 (Some (PyInt 7)) []; node_s]])
      differentiate (var_kwargs "x") 5%nat = Return (v, st') /\
    v = PyInt 2 /\ st' = 5%nat.
Proof.
  apply (linear_derivative_is_a_number
    (Instance Sub 4 None
         [Instance Add 2 None [node_s; Instance Number 1 (Some (PyInt 7)) []];
          Instance Sub 3 None [Instance Number 1 (Some (PyInt 7)) []; node_s]])
    (var_kwargs "x") (PyStr "x") 5%nat).
  - reflexivity.
  - by apply (bool_decide_unpack _).
  - reflexivity.
Defined.

(** ** The official representation *)

Lemma py_repr_operator op i v ops :
  py_repr (Instance (class_of_binop op) i v ops) =
  let? t := repr_tuple py_repr ops in
  Return (class_name (class_of_binop op) +:+ t).
Proof. by destruct op. Qed.

(** X10: on the data model, with symbol names free of quotes, backslashes
    and unprintable characters, [repr] is the prefix form of the
    expression: the class name, then the operands between parentheses
    separated by a comma and a space, numbers in decimal, names between
    single quotes. *)
Theorem repr_is_prefix_form (o : obj) :
  well_formed o = true -> plain_names o = true ->
  py_repr o = Return (repr_text o).
Proof.
  revert o.
  apply (well_formed_ind (fun o =>
    plain_names o = true -> py_repr o = Return (repr_text o))).
  - done.
  - intros i s Hs. simpl in Hs. rewrite andb_true_r in Hs.
    simpl. unfold repr_str. by rewrite Hs.
  - intros op i a b Ha Hb IHa IHb Hplain.
    assert (Hab : plain_names a = true /\ plain_names b = true).
    { simpl in Hplain. rewrite andb_true_r in Hplain.
      by apply andb_prop in Hplain. }
    destruct Hab as [Hpa Hpb].
    rewrite py_repr_operator. cbn [repr_tuple repr_items].
    rewrite (IHa Hpa), (IHb Hpb). cbn [bind repr_text].
    by rewrite !string_app_assoc.
Qed.

Lemma repr_is_prefix_form_witness :
  py_repr (Instance Sub 4 None
             [Instance Symbol 0 (Some (PyStr "a")) [];
              Instance Sub 3 None [Instance Symbol 1 (Some (PyStr "b")) [];
                                   Instance Number 2 (Some (PyInt 2)) []]]) =
  Return "Sub('a', Sub('b', 2))".
Proof.
  apply (repr_is_prefix_form
    (Instance Sub 4 None
             [Instance Symbol 0 (Some (PyStr "a")) [];
              Instance Sub 3 None [Instance Symbol 1 (Some (PyStr "b")) [];
                                   Instance Number 2 (Some (PyInt 2)) []]]));
    reflexivity.
Defined.

(** What [repr] prints for the node built by [x + "foo"]. *)
Lemma repr_bare_operand_example :
  (x <- symbol "x" ;; e <- py_binop OpAdd x (PyStr "foo") ;;
   lift (py_repr e)) 0%nat = Return ("Add('x', 'foo')", 2%nat).
Proof. reflexivity. Qed.

(** ** The product and power rules in general *)

(** At a binary root, the visitor returns what the rule of the root
    returns on results of the operands that are bare numbers or
    well-formed expressions. *)
Lemma postvisitor_binary_root op i a b kwargs var st :
  well_formed a = true -> well_formed b = true ->
  kwargs !! "var" = Some var ->
  exists da db st2 r st',
    derived da = true /\ derived db = true /\
    differentiate (Instance (class_of_binop op) i None [a; b]) [da; db]
                  kwargs st2 = Return (r, st') /\
    postvisitor (Instance (class_of_binop op) i None [a; b]) differentiate
                kwargs st = Return (r, st').
Proof.
  intros Ha Hb Hvar. rewrite postvisitor_process, process_binary.
  rewrite !contains_empty.
  destruct (process_differentiate_derived kwargs var b Hvar Hb ∅ st)
    as (V1 & st1 & Hb1 & HV1); [apply map_Forall_empty|].
  rewrite Hb1. cbn [bind].
  destruct (process_differentiate_derived kwargs var a Hvar Ha V1 st1 HV1)
    as (V2 & st2 & Ha2 & HV2).
  rewrite Ha2. cbn [bind].
  destruct (process_grows _ _ _ _ _ _ _ Hb1) as [_ Hinb].
  destruct (process_grows _ _ _ _ _ _ _ Ha2) as [Hg2 Hina].
  unfold visit.
  destruct (lookup_all_contains V2 [a; b]) as (args & Hargs & Hlen).
  { repeat constructor; [done|by apply Hg2]. }
  pose proof (lookup_all_Forall _ V2 _ _ HV2 Hargs) as Hder.
  rewrite Hargs. destruct args as [|da [|db [|]]]; try done.
  apply Forall_cons in Hder as [Hda Hder].
  apply Forall_cons in Hder as [Hdb _].
  destruct (differentiate_derived op i a b da db kwargs st2 Ha Hb Hda Hdb)
    as (r & st' & Hr & _).
  exists da, db, st2, r, st'. repeat split; try done.
  cbn [bind]. rewrite Hr. cbn [bind hashkey]. by rewrite lookup_insert_eq.
Qed.

(** The power rule: [b * a ** (b - 1) * o[0]], for any exponent [b] and
    without a look at the result [o[1]] of the exponent. *)
Lemma pow_rule i v a b da rest kwargs st :
  is_expression a = true -> is_expression b = true ->
  exists r st' d i1 i2 i3 i4 i5,
    differentiate (Instance Pow i v [a; b]) (da :: rest) kwargs st
      = Return (r, st') /\
    r = Instance Mul i5 None
          [Instance Mul i4 None
             [b; Instance Pow i3 None
                   [a; Instance Sub i2 None
                         [b; Instance Number i1 (Some (PyInt 1)) []]]];
           d] /\
    erase d = operand_shape da.
Proof.
  intros Ha Hb. destruct a; try done. destruct b; try done.
  destruct da; do 8 eexists; (split; [reflexivity|split; reflexivity]).
Qed.

(** The product rule: [o[0] * b + o[1] * a]. *)
Lemma mul_rule i v a b da db rest kwargs st :
  is_expression a = true -> is_expression b = true ->
  good da = true -> good db = true ->
  exists r st' l1 r1 i1 i2 i3,
    differentiate (Instance Mul i v [a; b]) (da :: db :: rest) kwargs st
      = Return (r, st') /\
    r = Instance Add i3 None
          [Instance Mul i1 None [l1; b]; Instance Mul i2 None [r1; a]] /\
    erase l1 = operand_shape da /\ erase r1 = operand_shape db.
Proof.
  intros Ha Hb Hda Hdb. destruct a; try done. destruct b; try done.
  destruct da; try done; destruct db; try done; do 7 eexists;
    (split; [reflexivity|split; [reflexivity|split; reflexivity]]).
Qed.

Lemma derived_good d : derived d = true -> good d = true.
Proof.
  intros Hd. destruct (derived_cases d Hd) as [[z ->]|[Hw _]]; [done|].
  unfold good. by rewrite (well_formed_expression d Hw), orb_true_r.
Qed.

(** C1, amended: the [Pow] rule fails for no exponent.  It neither looks
    at what the exponent depends on nor reads the result [o[1]] of the
    exponent: for all expressions [a] and [b] it returns
    [Mul(Mul(b, Pow(a, Sub(b, Number(1)))), d)], [d] being the result [o[0]]
    of the base, wrapped into a [Number] when it is a bare number.  So,
    with [var] given, differentiating any well-formed [pow(a, b)] returns a
    tree of this shape, and the derivative of [2 ^ x] in [x] has the shape
    [Mul(Mul(x, Pow(Number(2), Sub(x, Number(1)))), Number(0))]. *)
Theorem variable_exponent_shape
    (n i : nat) (a b da : obj) (rest : list obj)
    (kwargs : gmap string obj) (var : obj) (st : nat) :
  well_formed a = true -> well_formed b = true ->
  kwargs !! "var" = Some var ->
  (exists r st' d i1 i2 i3 i4 i5,
      differentiate (Instance Pow i None [a; b]) (da :: rest) kwargs st
        = Return (r, st') /\
      r = Instance Mul i5 None
            [Instance Mul i4 None
               [b; Instance Pow i3 None
                     [a; Instance Sub i2 None
                           [b; Instance Number i1 (Some (PyInt 1)) []]]];
             d] /\
      erase d = operand_shape da) /\
  (exists r st' d,
      postvisitor (Instance Pow i None [a; b]) differentiate kwargs st
        = Return (r, st') /\
      derived d = true /\
      erase r =
      sh_op Mul
        (sh_op Mul (erase b)
           (sh_op Pow (erase a) (sh_op Sub (erase b) (sh_number 1))))
        (operand_shape d)) /\
  (exists v st',
      variable_exponent_example n = Return (v, st') /\
      erase v =
      sh_op Mul
        (sh_op Mul (sh_symbol "x")
           (sh_op Pow (sh_number 2) (sh_op Sub (sh_symbol "x") (sh_number 1))))
        (sh_number 0)).
Proof.
  intros Ha Hb Hvar.
  pose proof (well_formed_expression a Ha) as Hea.
  pose proof (well_formed_expression b Hb) as Heb.
  split; [by apply pow_rule|]. split.
  - destruct (postvisitor_binary_root OpPow i a b kwargs var st Ha Hb Hvar)
      as (d & db & st2 & r & st' & Hd & _ & Hrule & Hrun).
    destruct (pow_rule i None a b d [db] kwargs st2 Hea Heb)
      as (r' & st'' & d' & i1 & i2 & i3 & i4 & i5 & Hrule' & -> & Hd').
    cbn [class_of_binop] in Hrule, Hrun. rewrite Hrule in Hrule'.
    injection Hrule' as -> ->.
    eexists _, st'', d. split; [exact Hrun|]. split; [done|].
    simpl. by rewrite Hd'.
  - eexists _, _.
    split; [py_exec variable_exponent_example; reflexivity|reflexivity].
Qed.

Lemma variable_exponent_shape_witness :
  (exists r st' d i1 i2 i3 i4 i5,
      differentiate (Instance Pow 2 None [node_two; node_s])
                    [PyInt 0; PyInt 1] (var_kwargs "x") 3%nat
        = Return (r, st') /\
      r = Instance Mul i5 None
            [Instance Mul i4 None
               [node_s; Instance Pow i3 None
                     [node_two; Instance Sub i2 None
                           [node_s; Instance Number i1 (Some (PyInt 1)) []]]];
             d] /\
      erase d = operand_shape (PyInt 0)) /\
  (exists r st' d,
      postvisitor (Instance Pow 2 None [node_two; node_s]) differentiate
                  (var_kwargs "x") 3%nat = Return (r, st') /\
      derived d = true /\
      erase r =
      sh_op Mul
        (sh_op Mul (erase node_s)
           (sh_op Pow (erase node_two)
              (sh_op Sub (erase node_s) (sh_number 1))))
        (operand_shape d)) /\
  (exists v st',
      variable_exponent_example 0%nat = Return (v, st') /\
      erase v =
      sh_op Mul
        (sh_op Mul (sh_symbol "x")
           (sh_op Pow (sh_number 2) (sh_op Sub (sh_symbol "x") (sh_number 1))))
        (sh_number 0)).
Proof.
  apply (variable_exponent_shape 0 2 node_two node_s (PyInt 0) [PyInt 1]
           (var_kwargs "x") (PyStr "x") 3%nat); reflexivity.
Defined.

(** C8: the derivative of [x * x] is [Add(Mul(Number(1), x2), Mul(Number(1),
    x1))], [x1] and [x2] being the two operand nodes of the product
    themselves.  In general the rule of [Mul(a, b)] returns
    [Add(Mul(d1, b), Mul(d2, a))] over the operand nodes [a] and [b]
    themselves, [d1] and [d2] being the results [o[0]] of [a] and [o[1]] of
    [b], a bare number wrapped into a [Number]; nothing is simplified: the
    derivative of [x * y] in [x] is [Add(Mul(Number(1), y), Mul(Number(0),
    x))]. *)
Theorem product_rule_shape
    (n i : nat) (a b da db : obj) (rest : list obj)
    (kwargs : gmap string obj) (var : obj) (st : nat) :
  well_formed a = true -> well_formed b = true ->
  good da = true -> good db = true ->
  kwargs !! "var" = Some var ->
  (exists v,
      product_example n = Return (v, (8 + n)%nat) /\
      v = Instance Add (7 + n) None
            [Instance Mul (4 + n) None
               [Instance Number (3 + n) (Some (PyInt 1)) [];
                Instance Symbol (1 + n) (Some (PyStr "x")) []];
             Instance Mul (6 + n) None
               [Instance Number (5 + n) (Some (PyInt 1)) [];
                Instance Symbol n (Some (PyStr "x")) []]] /\
      erase v = sh_op Add (sh_op Mul (sh_number 1) (sh_symbol "x"))
                          (sh_op Mul (sh_number 1) (sh_symbol "x"))) /\
  (exists r st' l1 r1 i1 i2 i3,
      differentiate (Instance Mul i None [a; b]) (da :: db :: rest) kwargs st
        = Return (r, st') /\
      r = Instance Add i3 None
            [Instance Mul i1 None [l1; b]; Instance Mul i2 None [r1; a]] /\
      erase l1 = operand_shape da /\ erase r1 = operand_shape db) /\
  (exists r st' d1 d2,
      postvisitor (Instance Mul i None [a; b]) differentiate kwargs st
        = Return (r, st') /\
      derived d1 = true /\ derived d2 = true /\
      erase r = sh_op Add (sh_op Mul (operand_shape d1) (erase b))
                          (sh_op Mul (operand_shape d2) (erase a))) /\
  (exists v st',
      product_xy_example n = Return (v, st') /\
      erase v = sh_op Add (sh_op Mul (sh_number 1) (sh_symbol "y"))
                          (sh_op Mul (sh_number 0) (sh_symbol "x"))).
Proof.
  intros Ha Hb Hda Hdb Hvar.
  pose proof (well_formed_expression a Ha) as Hea.
  pose proof (well_formed_expression b Hb) as Heb.
  split; [|split; [by apply mul_rule|split]].
  - eexists. split; [|split; [reflexivity|reflexivity]].
    py_exec product_example. reflexivity.
  - destruct (postvisitor_binary_root OpMul i a b kwargs var st Ha Hb Hvar)
      as (d1 & d2 & st2 & r & st' & Hd1 & Hd2 & Hrule & Hrun).
    destruct (mul_rule i None a b d1 d2 [] kwargs st2 Hea Heb
                (derived_good d1 Hd1) (derived_good d2 Hd2))
      as (r' & st'' & l1 & r1 & i1 & i2 & i3 & Hrule' & -> & Hl1 & Hr1).
    cbn [class_of_binop] in Hrule, Hrun. rewrite Hrule in Hrule'.
    injection Hrule' as -> ->.
    eexists _, st'', d1, d2. split; [exact Hrun|]. split; [done|].
    split; [done|]. simpl. by rewrite Hl1, Hr1.
  - eexists _, _.
    split; [py_exec product_xy_example; reflexivity|reflexivity].
Qed.

Lemma product_rule_shape_witness :
  (exists v,
      product_example 0%nat = Return (v, 8%nat) /\
      v = Instance Add 7 None
            [Instance Mul 4 None
               [Instance Number 3 (Some (PyInt 1)) [];
                Instance Symbol 1 (Some (PyStr "x")) []];
             Instance Mul 6 None
               [Instance Number 5 (Some (PyInt 1)) [];
                Instance Symbol 0 (Some (PyStr "x")) []]] /\
      erase v = sh_op Add (sh_op Mul (sh_number 1) (sh_symbol "x"))
                          (sh_op Mul (sh_number 1) (sh_symbol "x"))) /\
  (exists r st' l1 r1 i1 i2 i3,
      differentiate (Instance Mul 2 None [node_s; node_two])
                    [PyInt 1; PyInt 0] (var_kwargs "x") 3%nat
        = Return (r, st') /\
      r = Instance Add i3 None
            [Instance Mul i1 None [l1; node_two];
             Instance Mul i2 None [r1; node_s]] /\
      erase l1 = operand_shape (PyInt 1) /\
      erase r1 = operand_shape (PyInt 0)) /\
  (exists r st' d1 d2,
      postvisitor (Instance Mul 2 None [node_s; node_two]) differentiate
                  (var_kwargs "x") 3%nat = Return (r, st') /\
      derived d1 = true /\ derived d2 = true /\
      erase r = sh_op Add (sh_op Mul (operand_shape d1) (erase node_two))
                          (sh_op Mul (operand_shape d2) (erase node_s))) /\
  (exists v st',
      product_xy_example 0%nat = Return (v, st') /\
      erase v = sh_op Add (sh_op Mul (sh_number 1) (sh_symbol "y"))
                          (sh_op Mul (sh_number 0) (sh_symbol "x"))).
Proof.
  apply (product_rule_shape 0 2 node_s node_two (PyInt 1) (PyInt 0) []
           (var_kwargs "x") (PyStr "x") 3%nat); reflexivity.
Defined.

(** ** The official representation of malformed nodes *)

Lemma py_repr_well_formed (o : obj) :
  well_formed o = true -> plain_names o = true ->
  py_repr o = Return (repr_text o).
Proof.
  revert o.
  apply (well_formed_ind (fun o =>
    plain_names o = true -> py_repr o = Return (repr_text o))).
  - done.
  - intros i s Hs. simpl in Hs. rewrite andb_true_r in Hs.
    simpl. unfold repr_str. by rewrite Hs.
  - intros op i a b Ha Hb IHa IHb Hplain.
    assert (Hab : plain_names a = true /\ plain_names b = true).
    { simpl in Hplain. rewrite andb_true_r in Hplain.
      by apply andb_prop in Hplain. }
    destruct Hab as [Hpa Hpb].
    rewrite py_repr_operator. cbn [repr_tuple repr_items].
    rewrite (IHa Hpa), (IHb Hpb). cbn [bind repr_text].
    by rewrite !string_app_assoc.
Qed.

(** X11: [repr] prints the operator nodes on which [str] raises.  For a
    well-formed [x] and a string [s], both with plain names, the node with
    the operands [(x, s)] prints as [Name(X, 's')], with [(s, x)] as
    [Name('s', X)], with the single operand [x] as [Name(X,)] and without
    operands as [Name()], [X] being the prefix form of [x]. *)
Theorem repr_prints_malformed_nodes
    (op : binop) (i : nat) (v : option obj) (x : obj) (s : string) :
  well_formed x = true -> plain_names x = true -> plain s = true ->
  py_repr (Instance (class_of_binop op) i v [x; PyStr s]) =
    Return (class_name (class_of_binop op) +:+
            "(" +:+ repr_text x +:+ ", " +:+ "'" +:+ s +:+ "'" +:+ ")") /\
  py_repr (Instance (class_of_binop op) i v [PyStr s; x]) =
    Return (class_name (class_of_binop op) +:+
            "(" +:+ "'" +:+ s +:+ "'" +:+ ", " +:+ repr_text x +:+ ")") /\
  py_repr (Instance (class_of_binop op) i v [x]) =
    Return (class_name (class_of_binop op) +:+
            "(" +:+ repr_text x +:+ ",)") /\
  py_repr (Instance (class_of_binop op) i v []) =
    Return (class_name (class_of_binop op) +:+ "()").
Proof.
  intros Hx Hpx Hs.
  rewrite !py_repr_operator. cbn [repr_tuple repr_items py_repr].
  unfold repr_str. rewrite Hs, (py_repr_well_formed x Hx Hpx).
  cbn [bind]. repeat split; by rewrite ?string_app_assoc.
Qed.

Lemma repr_prints_malformed_nodes_witness :
  py_repr (Instance Add 1 None [node_s; PyStr "foo"]) =
    Return "Add('x', 'foo')" /\
  py_repr (Instance Add 1 None [PyStr "foo"; node_s]) =
    Return "Add('foo', 'x')" /\
  py_repr (Instance Add 1 None [node_s]) = Return "Add('x',)" /\
  py_repr (Instance Add 1 None []) = Return "Add()".
Proof.
  apply (repr_prints_malformed_nodes OpAdd 1 None node_s "foo"); reflexivity.
Defined.
